(** * Ramanujan formula evaluator: evaluation and ranking engine

    A shallow embedding of [server.js] (class [MathEvaluator] and the
    handlers of [/api/evaluate] and [/api/evaluate-batch]) and of
    [parser.js] ([parseApproximation], [parseBatch]), with the properties
    the specification states about them.

    JavaScript strings are modelled as [string] (ASCII), numbers that count
    things as [nat], JSON values as the inductive [JSValue] (a number
    literal by its exact value, read as the nearest double), and exceptions
    as explicit [Throw] results.  The two third-party libraries the code
    calls, mathjs ([evaluate]) and decimal.js ([Decimal]), are not part of
    the repository: the operations of decimal.js that only shuffle special
    values (zero, infinities, NaN) are written out, and what depends on
    their numerics is gathered in the record [Lib]. *)

From Stdlib Require Import Bool Arith List Lia ZArith QArith Qabs Qround.
From Stdlib Require Import Ascii String DecimalString.
From Stdlib Require Import Permutation Sorted.
Import ListNotations.

Set Warnings "-register-all".

Local Open Scope string_scope.
Local Open Scope bool_scope.

(** ** Characters and strings as JavaScript sees them *)

Module JSString.

Definition code (c : ascii) : nat := nat_of_ascii c.

Definition between (lo hi : nat) (c : ascii) : bool :=
  (lo <=? code c)%nat && (code c <=? hi)%nat.

(** [\d] *)
Definition is_digit (c : ascii) : bool := between 48 57 c.

Definition is_upper (c : ascii) : bool := between 65 90 c.

Definition is_lower (c : ascii) : bool := between 97 122 c.

(** [\w]: letters, digits and the underscore. *)
Definition is_word (c : ascii) : bool :=
  is_digit c || is_upper c || is_lower c || (code c =? 95)%nat.

Definition lower_char (c : ascii) : ascii :=
  if is_upper c then ascii_of_nat (code c + 32) else c.

(** [String.prototype.toLowerCase] *)
Fixpoint toLowerCase (s : string) : string :=
  match s with
  | EmptyString => EmptyString
  | String c s' => String (lower_char c) (toLowerCase s')
  end.

Fixpoint drop (n : nat) (s : string) : string :=
  match n, s with
  | O, _ => s
  | S _, EmptyString => EmptyString
  | S k, String _ s' => drop k s'
  end.

(** [s.startsWith(pat)] *)
Fixpoint starts_with (pat s : string) : bool :=
  match pat with
  | EmptyString => true
  | String a pat' =>
      match s with
      | EmptyString => false
      | String b s' => Ascii.eqb a b && starts_with pat' s'
      end
  end.

(** Is the first character of [s], if any, a word character?  The end of
    the input counts as a non-word position, as for [\b]. *)
Definition starts_with_word (s : string) : bool :=
  match s with
  | EmptyString => false
  | String c _ => is_word c
  end.

(** [s.replace(/pat/g, rep)] for a literal, non-empty pattern: matches are
    found left to right and do not overlap; the replacement is not
    scanned again.  [skip] counts the characters of the current match
    that are still to be dropped. *)
Fixpoint replace_from (pat rep : string) (skip : nat) (s : string) : string :=
  match s with
  | EmptyString => EmptyString
  | String c s' =>
      match skip with
      | S k => replace_from pat rep k s'
      | O =>
          if starts_with pat s
          then rep ++ replace_from pat rep (length pat - 1) s'
          else String c (replace_from pat rep 0 s')
      end
  end.

Definition replace_all (pat rep s : string) : string :=
  replace_from pat rep 0 s.

(** A match of [\bname\b] starts at the head of [s] when the previous
    character is not a word character ([prev = false]), [s] starts with
    [name], and what follows the match is not a word character.  This is
    the meaning of [\b] on both sides for a [name] made of word
    characters. *)
Definition word_match_here (name : string) (prev : bool) (s : string) : bool :=
  negb prev && starts_with name s && negb (starts_with_word (drop (length name) s)).

(** [s.replace(/\bname\b/g, rep)]; [prev] tells whether the character
    before the current position is a word character. *)
Fixpoint replace_word_from (name rep : string) (prev : bool) (skip : nat)
         (s : string) : string :=
  match s with
  | EmptyString => EmptyString
  | String c s' =>
      match skip with
      | S k => replace_word_from name rep (is_word c) k s'
      | O =>
          if word_match_here name prev s
          then rep ++ replace_word_from name rep (is_word c) (length name - 1) s'
          else String c (replace_word_from name rep (is_word c) 0 s')
      end
  end.

Definition replace_word (name rep s : string) : string :=
  replace_word_from name rep false 0 s.

(** The first alternative of [names] that matches as a whole word at the
    head of [s], as the alternation [\b(n1|n2|...)\b] tries them. *)
Fixpoint first_word_match (names : list string) (prev : bool) (s : string)
  : option string :=
  match names with
  | [] => None
  | n :: rest =>
      if word_match_here n prev s then Some n
      else first_word_match rest prev s
  end.

(** [(s.match(/\b(n1|n2|...)\b/g) || []).length] *)
Fixpoint count_words_from (names : list string) (prev : bool) (skip : nat)
         (s : string) : nat :=
  match s with
  | EmptyString => 0
  | String c s' =>
      match skip with
      | S k => count_words_from names (is_word c) k s'
      | O =>
          match first_word_match names prev s with
          | Some n => S (count_words_from names (is_word c) (length n - 1) s')
          | None => count_words_from names (is_word c) 0 s'
          end
      end
  end.

Definition count_words (names : list string) (s : string) : nat :=
  count_words_from names false 0 s.

Fixpoint mem_char (c : ascii) (cs : string) : bool :=
  match cs with
  | EmptyString => false
  | String d cs' => Ascii.eqb c d || mem_char c cs'
  end.

(** [(s.match(/[cs]/g) || []).length] for a character class. *)
Fixpoint count_chars (cs : string) (s : string) : nat :=
  match s with
  | EmptyString => 0
  | String c s' => (if mem_char c cs then 1 else 0) + count_chars cs s'
  end.

(** Where the scanner of [/\d+\.?\d*/g] stands: outside a match, in the
    leading digits, or in the digits after the one optional point. *)
Inductive NumState := Outside | IntPart | FracPart.

Definition dot : ascii := "."%char.

(** [(s.match(/\d+\.?\d*/g) || []).length] *)
Fixpoint count_numbers_from (st : NumState) (s : string) : nat :=
  match s with
  | EmptyString => 0
  | String c s' =>
      match st with
      | Outside =>
          if is_digit c then S (count_numbers_from IntPart s')
          else count_numbers_from Outside s'
      | IntPart =>
          if is_digit c then count_numbers_from IntPart s'
          else if Ascii.eqb c dot then count_numbers_from FracPart s'
          else count_numbers_from Outside s'
      | FracPart =>
          if is_digit c then count_numbers_from FracPart s'
          else count_numbers_from Outside s'
      end
  end.

Definition count_numbers (s : string) : nat := count_numbers_from Outside s.

(** The text before and after the first point. *)
Fixpoint split_point (s : string) : string * option string :=
  match s with
  | EmptyString => (EmptyString, None)
  | String c s' =>
      if Ascii.eqb c dot then (EmptyString, Some s')
      else let (a, b) := split_point s' in (String c a, b)
  end.

End JSString.

Import JSString.

(** ** Numbers *)

(** A JavaScript number: a finite value, an infinity or NaN. *)
Inductive JSNumber :=
| NFin (q : Q)
| NInf (negative : bool)
| NNaN.

Definition string_of_Z (n : Z) : string :=
  NilEmpty.string_of_int (Z.to_int n).

(** Doubles: how [JSON.parse] reads a number literal and how
    [Number.prototype.toString] prints a number. *)
Module Double.

(** [floor (log2 (a / b))] for positive [a] and [b]. *)
Definition exponent (a b : Z) : Z :=
  let e := (Z.log2 a - Z.log2 b)%Z in
  if (if (0 <=? e)%Z then (a <? b * 2 ^ e)%Z else (a * 2 ^ (- e) <? b)%Z)
  then (e - 1)%Z else e.

(** [num / den] rounded to the nearest integer, a tie to the even one. *)
Definition round_half_even (num den : Z) : Z :=
  let m := (num / den)%Z in
  match (2 * (num mod den) ?= den)%Z with
  | Lt => m
  | Gt => (m + 1)%Z
  | Eq => if Z.even m then m else (m + 1)%Z
  end.

(** The double nearest to [a / b], for positive [a] and [b]: 53
    significant bits, no bit below [2 ^ -1074], and none ([Infinity]) from
    [2 ^ 1024] on. *)
Definition nearest (a b : Z) : option Q :=
  let p := Z.max (exponent a b - 52) (-1074) in
  if (0 <=? p)%Z
  then
    let m := round_half_even a (b * 2 ^ p) in
    if (2 ^ 1024 <=? m * 2 ^ p)%Z then None else Some (inject_Z (m * 2 ^ p))
  else
    let m := round_half_even (a * 2 ^ (- p)) b in
    Some (Qred (m # Z.to_pos (2 ^ (- p)))).

(** The number [JSON.parse] reads from a literal of value [q]. *)
Definition of_Q (q : Q) : JSNumber :=
  match Qnum q with
  | Z0 => NFin 0
  | Zpos a =>
      match nearest (Zpos a) (Zpos (Qden q)) with
      | Some d => NFin d
      | None => NInf false
      end
  | Zneg a =>
      match nearest (Zpos a) (Zpos (Qden q)) with
      | Some d => NFin (Qopp d)
      | None => NInf true
      end
  end.

(** ToBoolean of the number read from [q]: false on zero only (a literal
    may be so small that it reads as zero). *)
Definition nonzero (q : Q) : bool :=
  match of_Q q with
  | NFin d => negb (Qeq_bool d 0)
  | NInf _ => true
  | NNaN => false
  end.

Definition pow10 (k : Z) : Q :=
  if (0 <=? k)%Z then inject_Z (10 ^ k) else 1 # Z.to_pos (10 ^ (- k)).

(** Is the decimal [c] read as the double [d]? *)
Definition reads_as (c d : Q) : bool :=
  match of_Q c with
  | NFin x => Qeq_bool x d
  | _ => false
  end.

(** The [n] with [10 ^ (n - 1) <= v < 10 ^ n], for a positive [v], from an
    estimate that is at most a few steps off. *)
Fixpoint settle (fuel : nat) (v : Q) (n : Z) : Z :=
  match fuel with
  | O => n
  | S f =>
      if Qle_bool (pow10 n) v then settle f v (n + 1)
      else if Qle_bool (pow10 (n - 1)) v then n
      else settle f v (n - 1)
  end.

Definition magnitude (v : Q) : Z :=
  settle 8 v (exponent (Qnum v) (Zpos (Qden v)) * 30103 / 100000 + 1).

(** The digits [s] and the exponent [n] that Number::toString prints for
    a positive double [v]: the least number [k] of digits such that
    [s * 10 ^ (n - k)] reads as [v], and of the two candidates around [v]
    the closer one (the even one when they are as close).  Seventeen
    digits always do. *)
Fixpoint shortest (fuel : nat) (k : Z) (v : Q) (n : Z) : Z * Z :=
  let u := pow10 (n - k) in
  let lo := Qfloor (v / u) in
  let hi := (lo + 1)%Z in
  let pick_hi := if (hi =? 10 ^ k)%Z then (1%Z, (n + 1)%Z) else (hi, n) in
  match fuel with
  | O => (lo, n)
  | S f =>
      match reads_as (inject_Z lo * u) v, reads_as (inject_Z hi * u) v with
      | true, true =>
          match (2 * v ?= inject_Z (lo + hi) * u)%Q with
          | Lt => (lo, n)
          | Gt => pick_hi
          | Eq => if Z.even lo then (lo, n) else pick_hi
          end
      | true, false => (lo, n)
      | false, true => pick_hi
      | false, false => shortest f (k + 1) v n
      end
  end.

Definition zeros (n : Z) : string :=
  string_of_list_ascii (repeat "0"%char (Z.to_nat n)).

(** The text of a positive number with digits [s] and exponent [n]: plain
    digits up to [1e21], a fraction down to [1e-6], the exponent form
    elsewhere. *)
Definition layout (s n : Z) : string :=
  let digits := string_of_Z s in
  let k := Z.of_nat (String.length digits) in
  if (k <=? n)%Z && (n <=? 21)%Z then digits ++ zeros (n - k)
  else if (0 <? n)%Z && (n <=? 21)%Z
  then substring 0 (Z.to_nat n) digits ++ "."
       ++ substring (Z.to_nat n) (Z.to_nat (k - n)) digits
  else if (-6 <? n)%Z && (n <=? 0)%Z then "0." ++ zeros (- n) ++ digits
  else
    let e := (n - 1)%Z in
    let mantissa :=
      if (k =? 1)%Z then digits
      else substring 0 1 digits ++ "." ++ substring 1 (Z.to_nat (k - 1)) digits in
    mantissa ++ "e" ++ (if (e <? 0)%Z then "-" else "+") ++ string_of_Z (Z.abs e).

Definition show_positive (v : Q) : string :=
  let (s, n) := shortest 17 1 v (magnitude v) in layout s n.

(** [Number.prototype.toString()] *)
Definition toString (x : JSNumber) : string :=
  match x with
  | NNaN => "NaN"
  | NInf false => "Infinity"
  | NInf true => "-Infinity"
  | NFin v =>
      match Qnum v with
      | Z0 => "0"
      | Zpos _ => show_positive v
      | Zneg _ => "-" ++ show_positive (Qopp v)
      end
  end.

End Double.

Arguments Double.nonzero : simpl never.
Arguments Double.of_Q : simpl never.
Arguments Double.toString : simpl never.

(** ** JSON values, truthiness and exceptions *)

(** What [JSON.parse] can produce, plus [undefined] for an absent property.
    A number is kept as the exact value [q] of its literal and stands for
    the double [Double.of_Q q]; an object is its list of properties (one
    binding per key, read by the first match). *)
Inductive JSValue :=
| JUndefined
| JNull
| JBool (b : bool)
| JNum (q : Q)
| JStr (s : string)
| JArr (items : list JSValue)
| JObj (fields : list (string * JSValue)).

(** Either a value or a thrown [Error] with its message. *)
Inductive Result (A : Type) :=
| Ok (a : A)
| Throw (message : string).

Arguments Ok {A} a.
Arguments Throw {A} message.

Definition bind {A B : Type} (r : Result A) (k : A -> Result B) : Result B :=
  match r with
  | Ok a => k a
  | Throw m => Throw m
  end.

Notation "x <- r ;; k" := (bind r (fun x => k))
  (at level 61, r at next level, right associativity).

Module JS.

(** ToBoolean *)
Definition truthy (v : JSValue) : bool :=
  match v with
  | JUndefined | JNull => false
  | JBool b => b
  | JNum q => Double.nonzero q
  | JStr s => negb (String.eqb s "")
  | JArr _ | JObj _ => true
  end.

(** [a || b] *)
Definition or (a b : JSValue) : JSValue := if truthy a then a else b.

Fixpoint lookup (k : string) (fields : list (string * JSValue)) : JSValue :=
  match fields with
  | [] => JUndefined
  | (k', v) :: rest => if String.eqb k k' then v else lookup k rest
  end.

(** [v.k] for a [v] that is neither [null] nor [undefined], and for the
    property names the parser reads (none of them is inherited by a
    string, a number, a boolean or an array). *)
Definition prop (v : JSValue) (k : string) : JSValue :=
  match v with
  | JObj fields => lookup k fields
  | _ => JUndefined
  end.

(** [v == null]: [null] or [undefined]. *)
Definition nullish (v : JSValue) : bool :=
  match v with
  | JUndefined | JNull => true
  | _ => false
  end.

Definition is_array (v : JSValue) : bool :=
  match v with
  | JArr _ => true
  | _ => false
  end.

Definition string_of_Z (n : Z) : string := string_of_Z n.

(** Does the object have a property [k] of its own? *)
Definition has_key (k : string) (fields : list (string * JSValue)) : bool :=
  existsb (fun kv => String.eqb k (fst kv)) fields.

Section Join.

Variable element : JSValue -> Result string.

(** [Array.prototype.join] with the separator [","]: the texts of the
    elements, converted from left to right. *)
Fixpoint join_with (l : list JSValue) : Result string :=
  match l with
  | [] => Ok ""
  | x :: rest =>
      match element x with
      | Throw m => Throw m
      | Ok head =>
          match rest with
          | [] => Ok head
          | _ :: _ =>
              match join_with rest with
              | Throw m => Throw m
              | Ok tail => Ok (head ++ "," ++ tail)
              end
          end
      end
  end.

End Join.

(** [String(v)], the conversion [Array.prototype.join] applies to the
    elements of an array ([null] and [undefined] give the empty text
    there).  An object is printed by [Object.prototype.toString], unless
    it has a property [toString] of its own: a value that comes from JSON
    is no function, so neither [toString] nor [valueOf] yields a primitive
    and the conversion throws a [TypeError]. *)
Fixpoint ToString (v : JSValue) : Result string :=
  match v with
  | JUndefined => Ok "undefined"
  | JNull => Ok "null"
  | JBool true => Ok "true"
  | JBool false => Ok "false"
  | JNum q => Ok (Double.toString (Double.of_Q q))
  | JStr s => Ok s
  | JArr items =>
      join_with (fun x => match x with
                          | JUndefined | JNull => Ok ""
                          | _ => ToString x
                          end) items
  | JObj fields =>
      if has_key "toString" fields
      then Throw "Cannot convert object to primitive value"
      else Ok "[object Object]"
  end.

(** [v.toString()], where the source text of [v] is [callee]: on an object
    with a property [toString] of its own the call is that of a value that
    is no function; an array is joined; the primitives print as in
    [String(v)]. *)
Definition toString (callee : string) (v : JSValue) : Result string :=
  match v with
  | JUndefined => Throw "Cannot read properties of undefined (reading 'toString')"
  | JNull => Throw "Cannot read properties of null (reading 'toString')"
  | JObj fields =>
      if has_key "toString" fields
      then Throw (callee ++ ".toString is not a function")
      else Ok "[object Object]"
  | _ => ToString v
  end.

(** The values [String(v)] converts without throwing: no object with a
    [toString] of its own, in the value or in an array of it. *)
Fixpoint printable (v : JSValue) : bool :=
  match v with
  | JArr items => forallb printable items
  | JObj fields => negb (has_key "toString" fields)
  | _ => true
  end.

End JS.

Module Num.

Definition of_nat (n : nat) : JSNumber := NFin (inject_Z (Z.of_nat n)).

Definition is_nan (x : JSNumber) : bool :=
  match x with
  | NNaN => true
  | _ => false
  end.

(** [x <= y] on numbers that are not NaN. *)
Definition leb (x y : JSNumber) : bool :=
  match x, y with
  | NNaN, _ | _, NNaN => false
  | NInf true, _ => true
  | _, NInf false => true
  | NInf false, _ => false
  | _, NInf true => false
  | NFin a, NFin b => Qle_bool a b
  end.

(** [Math.min(x, y)] and [Math.max(x, y)]: NaN when an argument is. *)
Definition min (x y : JSNumber) : JSNumber :=
  match x, y with
  | NNaN, _ | _, NNaN => NNaN
  | _, _ => if leb x y then x else y
  end.

Definition max (x y : JSNumber) : JSNumber :=
  match x, y with
  | NNaN, _ | _, NNaN => NNaN
  | _, _ => if leb x y then y else x
  end.

(** The sign of [x - y] as a sort comparator reads it: negative, zero or
    positive; NaN (from a NaN operand, or from two equal infinities) is
    read as zero. *)
Definition sub_sign (x y : JSNumber) : comparison :=
  match x, y with
  | NNaN, _ | _, NNaN => Eq
  | NInf a, NInf b => if Bool.eqb a b then Eq else if a then Lt else Gt
  | NInf a, NFin _ => if a then Lt else Gt
  | NFin _, NInf b => if b then Gt else Lt
  | NFin a, NFin b => (a ?= b)%Q
  end.

End Num.

(** A [Decimal] of decimal.js: a finite value (held exactly as a rational),
    an infinity or NaN.  Signed zeros are not distinguished. *)
Inductive Decimal :=
| DFin (q : Q)
| DInf (negative : bool)
| DNaN.

(** The numerics of the two libraries: what this development does not
    compute.  Every operation of the model that needs them takes a [Lib]. *)
Record Lib := {
  (** mathjs: [evaluate(expr).toString()], or the error thrown on the way. *)
  evaluate : string -> Result string;
  (** decimal.js: [new Decimal(text)], or its [DecimalError]. *)
  Decimal_parse : string -> Result Decimal;
  (** decimal.js: rounding of an exact result to the working precision
      ([precision + 10] significant digits). *)
  round : Q -> Q;
  (** decimal.js: base-10 logarithm of a finite positive value other than 1,
      rounded. *)
  log10 : Q -> Q;
  (** decimal.js: text of a finite value. *)
  show : Q -> string;
  (** The double nearest to a finite decimal. *)
  to_double : Q -> Q
}.

(** ** The operations of decimal.js the engine calls *)

Module Dec.

Section WithLib.

Variable L : Lib.

Definition of_nat (n : nat) : Decimal := DFin (inject_Z (Z.of_nat n)).

Definition is_zero (q : Q) : bool := Qeq_bool q 0.

Definition negative (q : Q) : bool := negb (Qle_bool 0 q).

(** [x.minus(y)] *)
Definition minus (x y : Decimal) : Decimal :=
  match x, y with
  | DNaN, _ | _, DNaN => DNaN
  | DFin a, DFin b => DFin (round L (a - b))
  | DFin _, DInf s => DInf (negb s)
  | DInf s, DFin _ => DInf s
  | DInf s, DInf t => if Bool.eqb s t then DNaN else DInf s
  end.

(** [x.plus(y)] *)
Definition plus (x y : Decimal) : Decimal :=
  match x, y with
  | DNaN, _ | _, DNaN => DNaN
  | DFin a, DFin b => DFin (round L (a + b))
  | DFin _, DInf s => DInf s
  | DInf s, DFin _ => DInf s
  | DInf s, DInf t => if Bool.eqb s t then DInf s else DNaN
  end.

(** [x.times(y)] *)
Definition times (x y : Decimal) : Decimal :=
  match x, y with
  | DNaN, _ | _, DNaN => DNaN
  | DFin a, DFin b => DFin (round L (a * b))
  | DFin a, DInf s => if is_zero a then DNaN else DInf (xorb (negative a) s)
  | DInf s, DFin b => if is_zero b then DNaN else DInf (xorb s (negative b))
  | DInf s, DInf t => DInf (xorb s t)
  end.

(** [x.dividedBy(y)]: no division throws; a zero divisor gives an
    infinity, or NaN when the dividend is zero too. *)
Definition dividedBy (x y : Decimal) : Decimal :=
  match x, y with
  | DNaN, _ | _, DNaN => DNaN
  | DInf _, DInf _ => DNaN
  | DInf s, DFin b => DInf (xorb s (negative b))
  | DFin _, DInf _ => DFin 0
  | DFin a, DFin b =>
      if is_zero b
      then (if is_zero a then DNaN else DInf (negative a))
      else DFin (round L (a / b))
  end.

(** [x.abs()] *)
Definition abs (x : Decimal) : Decimal :=
  match x with
  | DFin a => DFin (Qabs a)
  | DInf _ => DInf false
  | DNaN => DNaN
  end.

(** [x.negated()] *)
Definition negated (x : Decimal) : Decimal :=
  match x with
  | DFin a => DFin (- a)
  | DInf s => DInf (negb s)
  | DNaN => DNaN
  end.

(** [x.floor()] *)
Definition floor (x : Decimal) : Decimal :=
  match x with
  | DFin a => DFin (inject_Z (Qfloor a))
  | _ => x
  end.

(** [x.equals(0)] *)
Definition equals_zero (x : Decimal) : bool :=
  match x with
  | DFin a => is_zero a
  | _ => false
  end.

(** [x.log()]: with no argument the base is 10.  Zero gives
    [-Infinity], a negative value or NaN gives NaN, one gives zero and
    [Infinity] gives itself. *)
Definition log (x : Decimal) : Decimal :=
  match x with
  | DNaN => DNaN
  | DInf s => if s then DNaN else DInf false
  | DFin a =>
      if is_zero a then DInf true
      else if negative a then DNaN
      else if Qeq_bool a 1 then DFin 0
      else DFin (log10 L a)
  end.

(** [x.toNumber()] *)
Definition toNumber (x : Decimal) : JSNumber :=
  match x with
  | DFin a => NFin (to_double L a)
  | DInf s => NInf s
  | DNaN => NNaN
  end.

(** [x.toString()] *)
Definition toString (x : Decimal) : string :=
  match x with
  | DFin a => show L a
  | DInf false => "Infinity"
  | DInf true => "-Infinity"
  | DNaN => "NaN"
  end.

Definition is_nan (x : Decimal) : bool :=
  match x with
  | DNaN => true
  | _ => false
  end.

End WithLib.

End Dec.

(** ** [CONSTANTS]: the texts [CONSTANTS.name.toString()] substitutes *)

Module CONSTANTS.

Definition pi : string :=
  "3.1415926535897932384626433832795028841971693993751058209749445923078164062862089986280348253421170679".
Definition e : string :=
  "2.7182818284590452353602874713526624977572470936999595749669676277240766303535475945713821785251664274".
Definition phi : string :=
  "1.6180339887498948482045868343656381177203091798057628621354486227052604628189024497072072041893911374".
Definition gamma : string :=
  "0.5772156649015328606065120900824024310421593359399235988057672348848677267776646709369470632917467495".
Definition sqrt2 : string :=
  "1.4142135623730950488016887242096980785696718753769480731766797379907324784621070388503875343276415727".
Definition sqrt3 : string :=
  "1.7320508075688772935274463415058723669428052538103806280558069794519330169088000370811461867572485757".
Definition ln2 : string :=
  "0.6931471805599453094172321214581765680755001343602552541206800094933936219696947156058633269964186875".

(** In the order [evaluateExpression] substitutes them. *)
Definition table : list (string * string) :=
  [("pi", pi); ("e", e); ("phi", phi); ("gamma", gamma);
   ("sqrt2", sqrt2); ("sqrt3", sqrt3); ("ln2", ln2)].

End CONSTANTS.

(** ** [class MathEvaluator] *)

(** What [calculateApproximationQuality] returns. *)
Record Quality := {
  absoluteError : string;
  relativeError : string;
  complexity : nat;
  eleganceScore : string;
  accuracy : JSNumber;
  score : JSNumber
}.

Module MathEvaluator.

(** [this.precision] *)
Definition precision : nat := 50.

(** The chain of [.replace] calls that cleans Python/mpmath syntax, after
    [toLowerCase]. *)
Definition clean_mpmath (expression : string) : string :=
  let expr := toLowerCase expression in
  let expr := replace_all "mp.pi" "pi" expr in
  let expr := replace_all "mp.e" "e" expr in
  let expr := replace_all "mp.sqrt(" "sqrt(" expr in
  let expr := replace_all "mp.exp(" "exp(" expr in
  let expr := replace_all "mp.ln(" "log(" expr in
  let expr := replace_all "mp.log(" "log(" expr in
  let expr := replace_all "mp.sin(" "sin(" expr in
  let expr := replace_all "mp.cos(" "cos(" expr in
  let expr := replace_all "mp.tan(" "tan(" expr in
  let expr := replace_all "mp.sinh(" "sinh(" expr in
  let expr := replace_all "mp.cosh(" "cosh(" expr in
  let expr := replace_all "mp.tanh(" "tanh(" expr in
  replace_all "mp." "" expr.

(** One [expr = expr.replace(/\bname\b/g, value)] after the other, in the
    order of the list. *)
Definition substitute (table : list (string * string)) (expr : string) : string :=
  fold_left (fun acc kv => replace_word (fst kv) (snd kv) acc) table expr.

(** The text handed to mathjs: the built-in constants are replaced first,
    then the custom ones ([constants] lists the keys of the caller's
    object in [Object.keys] order, each a name made of word characters,
    with the text of its value, which holds no [$]). *)
Definition prepare (expression : string) (constants : list (string * string))
  : string :=
  substitute constants (substitute CONSTANTS.table (clean_mpmath expression)).

Section WithLib.

Variable L : Lib.

(** [evaluateExpression(expression, constants = {})] *)
Definition evaluateExpression (expression : string)
           (constants : list (string * string)) : Result Decimal :=
  match (text <- evaluate L (prepare expression constants) ;;
         Decimal_parse L text) with
  | Ok d => Ok d
  | Throw m => Throw ("Expression evaluation failed: " ++ m)
  end.

Definition function_names : list string :=
  ["sqrt"; "log"; "ln"; "exp"; "sin"; "cos"; "tan"; "asin"; "acos"; "atan"].

Definition constant_names : list string :=
  ["pi"; "e"; "phi"; "gamma"; "sqrt2"; "sqrt3"; "ln2"].

(** [calculateComplexity(expression)] *)
Definition calculateComplexity (expression : string) : nat :=
  let operators := count_chars "+-*/^()" expression in
  let functions := count_words function_names expression in
  let constants := count_words constant_names expression in
  let numbers := count_numbers expression in
  length expression + operators * 2 + functions * 3 + constants + numbers.

(** [calculateAccuracy(absoluteError)] *)
Definition calculateAccuracy (absoluteError : Decimal) : JSNumber :=
  if Dec.equals_zero absoluteError then Num.of_nat precision
  else
    let logError := Dec.log L absoluteError in
    let accuracy :=
      Dec.floor
        (Dec.negated (Dec.dividedBy L logError (Dec.log L (Dec.of_nat 10)))) in
    Num.max (Num.of_nat 0)
            (Num.min (Num.of_nat precision) (Dec.toNumber L accuracy)).

(** [new Decimal('1e-50')] *)
Definition epsilon : Decimal := DFin (1 / inject_Z (10 ^ 50)).

(** [calculateOverallScore(absoluteError, complexity)] *)
Definition calculateOverallScore (absoluteError : Decimal) (complexity : nat)
  : JSNumber :=
  let errorScore :=
    Dec.dividedBy L (Dec.of_nat 1) (Dec.plus L absoluteError epsilon) in
  let complexityPenalty :=
    Dec.dividedBy L (Dec.of_nat 1)
                  (Dec.plus L (Dec.of_nat complexity) (Dec.of_nat 1)) in
  Dec.toNumber L (Dec.times L errorScore complexityPenalty).

(** [new Decimal(0.01)] *)
Definition elegance_weight : Decimal := DFin (1 # 100).

(** [calculateApproximationQuality(computed, target, expression)];
    [new Decimal(computed.toString())] copies [computed]. *)
Definition calculateApproximationQuality (computed : Decimal)
           (target : string) (expression : string) : Result Quality :=
  match Decimal_parse L target with
  | Throw m => Throw ("Quality calculation failed: " ++ m)
  | Ok targetDecimal =>
      let absoluteError := Dec.abs (Dec.minus L computed targetDecimal) in
      let relativeError :=
        Dec.dividedBy L absoluteError (Dec.abs targetDecimal) in
      let complexity := calculateComplexity expression in
      let eleganceScore :=
        Dec.times L absoluteError
                  (Dec.plus L (Dec.of_nat 1)
                            (Dec.times L elegance_weight
                                       (Dec.of_nat complexity))) in
      let accuracy := calculateAccuracy absoluteError in
      Ok {| absoluteError := Dec.toString L absoluteError;
            relativeError := Dec.toString L relativeError;
            complexity := complexity;
            eleganceScore := Dec.toString L eleganceScore;
            accuracy := accuracy;
            score := calculateOverallScore absoluteError complexity |}
  end.

End WithLib.

End MathEvaluator.

(** ** [parser.js] *)

(** An entry of an [errors] array: [{ index, expression, error }];
    [expression] is [JUndefined] where the object has no such property. *)
Module ErrorEntry.

Record t := {
  index : Z;
  expression : JSValue;
  error : string
}.

End ErrorEntry.

Module Parser.

(** What [parseApproximation] returns: an object with a non-null [error],
    or the four texts. *)
Inductive Outcome :=
| Missing (error : string)
| Fields (expression targetValue targetName description : string).

(** An element of [parsed]: [{ index, ...result }]. *)
Record Item := {
  index : nat;
  expression : string;
  targetValue : string;
  targetName : string;
  description : string
}.

Definition pick_expression (approx : JSValue) : JSValue :=
  JS.or (JS.or (JS.prop approx "expression") (JS.prop approx "expr"))
        (JS.prop approx "formula").

Definition pick_targetValue (approx : JSValue) : JSValue :=
  JS.or (JS.or (JS.or (JS.prop approx "value") (JS.prop approx "target"))
               (JS.prop approx "computed"))
        (JS.prop approx "result").

Definition pick_targetName (approx : JSValue) : JSValue :=
  JS.or (JS.or (JS.or (JS.prop approx "targetName") (JS.prop approx "target_name"))
               (JS.prop approx "name"))
        (JStr "unknown").

Definition pick_description (approx : JSValue) : JSValue :=
  JS.or (JS.or (JS.prop approx "description") (JS.prop approx "desc"))
        (JStr "").

Definition is_string (v : JSValue) : bool :=
  match v with
  | JStr _ => true
  | _ => false
  end.

(** [parseApproximation(approx, index)].  The logging lines matter where
    they can throw, which is before the validation: [Object.keys(approx)]
    on [null], [expression.substring(0, 50)] on a truthy [expression] that
    is not a string, and [targetValue.toString()] on a truthy [targetValue]
    that does not convert.  The conversions of the returned object come
    after the validation. *)
Definition parseApproximation (approx : JSValue) (index : nat) : Result Outcome :=
  match approx with
  | JNull | JUndefined => Throw "Cannot convert undefined or null to object"
  | _ =>
      let expression := pick_expression approx in
      if JS.truthy expression && negb (is_string expression)
      then Throw "expression.substring is not a function"
      else
        let targetValue := pick_targetValue approx in
        logged <- (if JS.truthy targetValue
                   then JS.toString "targetValue" targetValue
                   else Ok "") ;;
        let targetName := pick_targetName approx in
        let description := pick_description approx in
        if negb (JS.truthy expression)
        then Ok (Missing "Missing expression field (tried: expression, expr, formula)")
        else if negb (JS.truthy targetValue)
        then Ok (Missing "Missing target value field (tried: value, target, computed, result)")
        else
          expressionText <- JS.toString "expression" expression ;;
          targetText <- JS.toString "targetValue" targetValue ;;
          nameText <- JS.toString "targetName" targetName ;;
          descriptionText <- JS.toString "description" description ;;
          Ok (Fields expressionText targetText nameText descriptionText)
  end.

(** The body of [approximations.forEach((approx, index) => ...)]: the
    arrays [parsed] and [errors] before and after one element. *)
Definition parse_step (acc : list Item * list ErrorEntry.t)
           (approx : JSValue) (index : nat)
  : Result (list Item * list ErrorEntry.t) :=
  result <- parseApproximation approx index ;;
  match result with
  | Missing error =>
      Ok (fst acc,
          app (snd acc) [{| ErrorEntry.index := Z.of_nat index;
                         ErrorEntry.expression :=
                           JS.or (JS.prop approx "expression") (JStr "missing");
                         ErrorEntry.error := error |}])
  | Fields expression targetValue targetName description =>
      Ok (app (fst acc) [{| index := index;
                         expression := expression;
                         targetValue := targetValue;
                         targetName := targetName;
                         description := description |}],
          snd acc)
  end.

Fixpoint parse_from (index : nat) (items : list JSValue)
         (acc : list Item * list ErrorEntry.t)
  : Result (list Item * list ErrorEntry.t) :=
  match items with
  | [] => Ok acc
  | approx :: rest =>
      acc' <- parse_step acc approx index ;;
      parse_from (S index) rest acc'
  end.

(** [parseBatch(approximations)]: the pair [{ parsed, errors }], or what
    [parseApproximation] threw. *)
Definition parseBatch (approximations : JSValue)
  : Result (list Item * list ErrorEntry.t) :=
  match approximations with
  | JArr items => parse_from 0 items ([], [])
  | _ =>
      Ok ([], [{| ErrorEntry.index := (-1)%Z;
                  ErrorEntry.expression := JUndefined;
                  ErrorEntry.error := "Input must be an array" |}])
  end.

End Parser.

(** ** The handlers of [server.js] *)

Module Server.

(** An element of [results]; the [timestamp] (the wall clock) is left
    out. *)
Record Entry := {
  index : nat;
  expression : string;
  target : string;
  targetName : string;
  description : string;
  computed : string;
  quality : Quality
}.

Record Summary := {
  total : nat;
  successful : nat;
  failed : nat;
  bestScore : JSNumber
}.

(** The result of [POST /api/evaluate]: [{ expression, target,
    targetName, computed, quality }]. *)
Record Single := {
  single_expression : string;
  single_target : string;
  single_targetName : JSValue;
  single_computed : string;
  single_quality : Quality
}.

Inductive Response :=
| Status400 (error : string)
| Status500 (error : string)
| BatchOk (results : list Entry) (errors : list ErrorEntry.t) (summary : Summary)
| SingleOk (result : Single).

(** The comparator [(a, b) => b.quality.score - a.quality.score], by the
    sign of its value. *)
Definition by_score (a b : Entry) : comparison :=
  Num.sub_sign (score (quality b)) (score (quality a)).

(** [Array.prototype.sort(cmp)], which is stable: an insertion sort that
    puts an element before the first one it does not compare greater
    than. *)
Fixpoint insert {A : Type} (cmp : A -> A -> comparison) (x : A) (l : list A)
  : list A :=
  match l with
  | [] => [x]
  | y :: rest =>
      match cmp x y with
      | Gt => y :: insert cmp x rest
      | _ => x :: l
      end
  end.

Definition sort {A : Type} (cmp : A -> A -> comparison) (l : list A) : list A :=
  fold_right (insert cmp) [] l.

Section WithLib.

Variable L : Lib.

(** The [try] block of [parsed.forEach((item) => ...)]. *)
Definition evaluate_item (item : Parser.Item) : Result Entry :=
  computed <- MathEvaluator.evaluateExpression L (Parser.expression item) [] ;;
  quality <- MathEvaluator.calculateApproximationQuality
               L computed (Parser.targetValue item) (Parser.expression item) ;;
  Ok {| index := Parser.index item;
        expression := Parser.expression item;
        target := Parser.targetValue item;
        targetName := Parser.targetName item;
        description := Parser.description item;
        computed := Dec.toString L computed;
        quality := quality |}.

(** One round of [parsed.forEach]: [results] and [errors] before and
    after; the [catch] block records what the [try] block threw. *)
Definition evaluate_step (acc : list Entry * list ErrorEntry.t)
           (item : Parser.Item) : list Entry * list ErrorEntry.t :=
  match evaluate_item item with
  | Ok entry => (app (fst acc) [entry], snd acc)
  | Throw message =>
      (fst acc,
       app (snd acc) [{| ErrorEntry.index := Z.of_nat (Parser.index item);
                      ErrorEntry.expression :=
                        JS.or (JStr (Parser.expression item)) (JStr "unknown");
                      ErrorEntry.error := message |}])
  end.

Definition evaluate_all (parsed : list Parser.Item)
           (parseErrors : list ErrorEntry.t) : list Entry * list ErrorEntry.t :=
  fold_left evaluate_step parsed ([], parseErrors).

Definition array_length (v : JSValue) : nat :=
  match v with
  | JArr items => List.length items
  | _ => 0
  end.

(** [app.post('/api/evaluate-batch', ...)] on the request body. *)
Definition evaluate_batch (body : JSValue) : Response :=
  match body with
  | JNull | JUndefined => Status500 "Cannot convert undefined or null to object"
  | _ =>
      let approximations := JS.prop body "approximations" in
      if negb (JS.truthy approximations)
      then Status400 "Invalid request: approximations array required"
      else if negb (JS.is_array approximations)
      then Status400 "approximations must be an array"
      else
        match Parser.parseBatch approximations with
        | Throw message => Status500 message
        | Ok (parsed, parseErrors) =>
            let (unsorted, errors) := evaluate_all parsed parseErrors in
            let results := sort by_score unsorted in
            BatchOk results errors
                    {| total := array_length approximations;
                       successful := List.length results;
                       failed := List.length errors;
                       bestScore :=
                         match results with
                         | best :: _ => score (quality best)
                         | [] => Num.of_nat 0
                         end |}
        end
  end.

(** [calculateApproximationQuality(computed, target, expression)] on a
    [target] that is any truthy value: [target.toString()] is inside the
    [try] block. *)
Definition quality_of_value (computed : Decimal) (target : JSValue)
           (expression : string) : Result Quality :=
  match JS.toString "target" target with
  | Throw m => Throw ("Quality calculation failed: " ++ m)
  | Ok text => MathEvaluator.calculateApproximationQuality L computed text expression
  end.

(** [app.post('/api/evaluate', ...)] on the request body. *)
Definition evaluate_single (body : JSValue) : Response :=
  match body with
  | JNull =>
      Status500 "Cannot destructure property 'expression' of 'req.body' as it is null."
  | JUndefined =>
      Status500
        "Cannot destructure property 'expression' of 'req.body' as it is undefined."
  | _ =>
      let expression := JS.prop body "expression" in
      let target := JS.prop body "target" in
      let targetName := JS.prop body "targetName" in
      if negb (JS.truthy expression) || negb (JS.truthy target)
      then Status400 "Missing required fields: expression and target"
      else
        match expression with
        | JStr text =>
            match (computed <- MathEvaluator.evaluateExpression L text [] ;;
                   quality <- quality_of_value computed target text ;;
                   targetText <- JS.toString "target" target ;;
                   Ok (computed, quality, targetText)) with
            | Throw message => Status500 message
            | Ok (computed, quality, targetText) =>
                SingleOk {| single_expression := text;
                            single_target := targetText;
                            single_targetName := JS.or targetName (JStr "unknown");
                            single_computed := Dec.toString L computed;
                            single_quality := quality |}
            end
        | _ =>
            Status500
              "Expression evaluation failed: expression.toLowerCase is not a function"
        end
  end.

End WithLib.

End Server.

(** ** A small instance of the libraries

    Enough of mathjs and decimal.js to run the model on the inputs of the
    examples below: integer literals (and their absolute value) as
    expressions, plain decimal texts as targets, exact arithmetic, and a
    logarithm rounded up to an integer. *)

Module Reference.

Fixpoint all_digits (s : string) : bool :=
  match s with
  | EmptyString => true
  | String c s' => is_digit c && all_digits s'
  end.

Definition digit_value (c : ascii) : Z := Z.of_nat (code c - 48).

Fixpoint digits_value (acc : Z) (s : string) : Z :=
  match s with
  | EmptyString => acc
  | String c s' => digits_value (10 * acc + digit_value c) s'
  end.

(** A literal of at most fifteen digits with no leading zero: mathjs
    returns the number and [toString] prints the same digits. *)
Definition is_literal (expr : string) : bool :=
  negb (String.eqb expr "") && all_digits expr
  && (length expr <=? 15)%nat
  && (String.eqb expr "0" || negb (starts_with "0" expr)).

(** mathjs on a literal and on [abs(literal)], its absolute value
    function; this instance throws on every other text. *)
Definition evaluate_small (expr : string) : Result string :=
  let argument := substring 4 (length expr - 5) expr in
  if is_literal expr then Ok expr
  else if String.eqb expr ("abs(" ++ argument ++ ")") && is_literal argument
  then Ok argument
  else Throw ("Undefined symbol " ++ expr).

Definition parse_unsigned (s : string) : option Decimal :=
  if String.eqb s "Infinity" then Some (DInf false)
  else if String.eqb s "NaN" then Some DNaN
  else
    match split_point s with
    | (int, None) =>
        if negb (String.eqb int "") && all_digits int
        then Some (DFin (inject_Z (digits_value 0 int)))
        else None
    | (int, Some frac) =>
        if negb (String.eqb (int ++ frac) "") && all_digits int && all_digits frac
        then Some (DFin (Qred (digits_value 0 (int ++ frac)
                               # Pos.pow 10 (Pos.of_nat (length frac)))))
        else None
    end.

Definition parse_decimal (text : string) : Result Decimal :=
  let invalid := Throw ("[DecimalError] Invalid argument: " ++ text) in
  match text with
  | String "-" rest =>
      match parse_unsigned rest with
      | Some d => Ok (Dec.negated d)
      | None => invalid
      end
  | _ =>
      match parse_unsigned text with
      | Some d => Ok d
      | None => invalid
      end
  end.

(** The least [k >= 0] with [n <= d * 10 ^ k], for [d < n], in at most
    [fuel] steps. *)
Fixpoint log_up (fuel : nat) (n d : Z) : Z :=
  match fuel with
  | O => 0
  | S f => if (n <=? d)%Z then 0%Z else (1 + log_up f n (10 * d))%Z
  end.

(** The largest [k >= 0] with [n * 10 ^ k <= d], for [0 < n <= d]. *)
Fixpoint log_down (fuel : nat) (n d : Z) : Z :=
  match fuel with
  | O => 0
  | S f => if (10 * n <=? d)%Z then (1 + log_down f (10 * n) d)%Z else 0%Z
  end.

(** The base-10 logarithm of a positive rational rounded up to an
    integer: the logarithm itself on a power of ten, and everywhere a
    value whose negation has the floor of the exact one, which is all
    [calculateAccuracy] reads. *)
Definition ceil_log10 (q : Q) : Q :=
  let n := Qnum q in
  let d := Zpos (Qden q) in
  if (d <? n)%Z
  then inject_Z (log_up (Z.to_nat (Z.log2 n) + 1) n d)
  else inject_Z (- log_down (Z.to_nat (Z.log2 d) + 1) n d).

(** Integers print as their digits; other values as a fraction, which no
    example reads. *)
Definition show_exact (q : Q) : string :=
  let r := Qred q in
  if (Qden r =? 1)%positive then JS.string_of_Z (Qnum r)
  else JS.string_of_Z (Qnum r) ++ "/" ++ JS.string_of_Z (Zpos (Qden r)).

Definition lib : Lib :=
  {| evaluate := evaluate_small;
     Decimal_parse := parse_decimal;
     round := Qred;
     log10 := ceil_log10;
     show := show_exact;
     to_double := Qred |}.

End Reference.

(** ** Request bodies *)

Module Request.

(** [{ expression, target }] as [JSON.parse] gives it. *)
Definition item (expression target : JSValue) : JSValue :=
  JObj [("expression", expression); ("target", target)].

(** The request body [{ approximations: [...] }]. *)
Definition batch (items : list JSValue) : JSValue :=
  JObj [("approximations", JArr items)].

(** An item [parseApproximation] goes through without throwing: it is
    not [null]; its expression is falsy or a string; its target is falsy or
    converts to a string; and where both are there, its name and its
    description convert to a string. *)
Definition well_formed (approx : JSValue) : bool :=
  let expression := Parser.pick_expression approx in
  let targetValue := Parser.pick_targetValue approx in
  negb (JS.nullish approx)
  && (negb (JS.truthy expression) || Parser.is_string expression)
  && (negb (JS.truthy targetValue) || JS.printable targetValue)
  && (negb (JS.truthy expression) || negb (JS.truthy targetValue)
      || (JS.printable (Parser.pick_targetName approx)
          && JS.printable (Parser.pick_description approx))).

End Request.


(** ** The formulas as the specification words them *)

Module Spec.

(** The supported function set of the specification. *)
Definition function_names : list string :=
  ["sqrt"; "log"; "ln"; "exp"; "sin"; "cos"; "tan"; "asin"; "acos"; "atan";
   "sinh"; "cosh"; "tanh"].

(** [length + 2 * operatorCount + 3 * functionCount + constantCount +
    numericLiteralCount], the function count being taken over the whole
    supported set. *)
Definition complexity (expression : string) : nat :=
  length expression
  + 2 * count_chars "+-*/^()" expression
  + 3 * count_words function_names expression
  + count_words MathEvaluator.constant_names expression
  + count_numbers expression.

(** The cleaning of mpmath syntax, one pass over the lowercased text:
    every [mp.] is dropped, and an [mp.ln(] is written [log(]; [skip]
    counts the characters of the current match still to be dropped. *)
Fixpoint strip_from (skip : nat) (s : string) : string :=
  match s with
  | EmptyString => EmptyString
  | String c s' =>
      match skip with
      | S k => strip_from k s'
      | O =>
          if starts_with "mp.ln(" s then "log(" ++ strip_from 5 s'
          else if starts_with "mp." s then strip_from 2 s'
          else String c (strip_from 0 s')
      end
  end.

Definition strip_mpmath (expression : string) : string :=
  strip_from 0 (toLowerCase expression).

Definition precisionLimit : nat := 50.

(** [floor(-log10(absoluteError))] clamped to [[0, precisionLimit]], and
    [precisionLimit] for an error of zero. *)
Definition accuracyDigits (L : Lib) (absoluteError : Decimal) : JSNumber :=
  if Dec.equals_zero absoluteError then Num.of_nat precisionLimit
  else
    Num.max (Num.of_nat 0)
            (Num.min (Num.of_nat precisionLimit)
                     (Dec.toNumber L (Dec.floor (Dec.negated (Dec.log L absoluteError))))).

End Spec.

(** What [calculateAccuracy] relies on when it divides by
    [new Decimal(10).log()]: the logarithm of the library is to base 10, so
    that of 10 is 1, and dividing a logarithm (or zero) by it gives the
    dividend back at the working precision. *)
Definition log_base_ten (L : Lib) : Prop :=
  log10 L 10 == 1
  /\ (forall q, round L (log10 L q / log10 L 10) == log10 L q)
  /\ round L (0 / log10 L 10) == 0.

(** The order of the ranking: a higher score first, and among equal
    scores the item submitted first. *)
Definition ranks_before (a b : Server.Entry) : Prop :=
  let sign := Num.sub_sign (score (Server.quality a)) (score (Server.quality b)) in
  sign = Gt \/ (sign = Eq /\ (Server.index a < Server.index b)%nat).

Definition scored (r : Server.Entry) : Prop :=
  Num.is_nan (score (Server.quality r)) = false.

(** The results the evaluation loop collects from [parsed], in order. *)
Definition successes (L : Lib) (parsed : list Parser.Item) : list Server.Entry :=
  flat_map (fun item => match Server.evaluate_item L item with
                        | Ok entry => [entry]
                        | Throw _ => []
                        end) parsed.

(** A result that carries the score [s] and the position [index]. *)
Definition scored_entry (index : nat) (s : Q) : Server.Entry :=
  {| Server.index := index;
     Server.expression := "";
     Server.target := "";
     Server.targetName := "unknown";
     Server.description := "";
     Server.computed := "";
     Server.quality :=
       {| absoluteError := ""; relativeError := ""; complexity := 0;
          eleganceScore := ""; accuracy := NFin 0; score := NFin s |} |}.

(** Four approximations of targets near 3 by the literal [3]; the second
    and the third are the same and so tie. *)
Definition tie_batch : JSValue :=
  Request.batch [Request.item (JStr "3") (JStr "3.1");
                   Request.item (JStr "3") (JStr "3.01");
                   Request.item (JStr "3") (JStr "3.01");
                   Request.item (JStr "3") (JStr "4")].

(** What the handler answers to [tie_batch] with the instance above. *)
Definition tie_results : list Server.Entry :=
  Eval vm_compute in
    match Server.evaluate_batch Reference.lib tie_batch with
    | Server.BatchOk results _ _ => results
    | _ => []
    end.

Definition tie_summary : Server.Summary :=
  {| Server.total := 4;
     Server.successful := 4;
     Server.failed := 0;
     Server.bestScore :=
       match tie_results with
       | best :: _ => score (Server.quality best)
       | [] => Num.of_nat 0
       end |}.

(** ** The cleaning rules

    What the proofs about [clean_mpmath] speak of: the chain of
    replacements as a list of rules applied in order. *)

Definition mpmath_rules : list (string * string) :=
  [("mp.pi", "pi"); ("mp.e", "e"); ("mp.sqrt(", "sqrt("); ("mp.exp(", "exp(");
   ("mp.ln(", "log("); ("mp.log(", "log("); ("mp.sin(", "sin(");
   ("mp.cos(", "cos("); ("mp.tan(", "tan("); ("mp.sinh(", "sinh(");
   ("mp.cosh(", "cosh("); ("mp.tanh(", "tanh("); ("mp.", "")].

Definition apply_rules (rules : list (string * string)) (s : string) : string :=
  fold_left (fun acc r => replace_all (fst r) (snd r) acc) rules s.

(** A rule that drops an [mp.] in front of a text with no [m] in it. *)
Definition strip_rule (r : string * string) : bool :=
  String.eqb (fst r) ("mp." ++ snd r) && negb (mem_char "m" (snd r)).

(** [w] and [rep] differ at a position that both have. *)
Fixpoint clash (w rep : string) : bool :=
  match w, rep with
  | String a w', String b rep' => if Ascii.eqb a b then clash w' rep' else true
  | _, _ => false
  end.

(** Every non-empty suffix of [w] clashes with [rep]: a text that ends in
    a part of [w] and goes on with [rep] does not bring [w] about. *)
Fixpoint suffixes_clash (w rep : string) : bool :=
  match w with
  | EmptyString => true
  | String _ w' => clash w rep && suffixes_clash w' rep
  end.

(** A rule whose pattern starts with [mp.] and whose replacement brings
    no [w] about. *)
Definition keeps_out (w : string) (r : string * string) : bool :=
  starts_with "mp." (fst r) && suffixes_clash w (snd r).

(** Three approximations of which the second has the target [NaN], and
    so a score that is NaN. *)
Definition nan_batch : JSValue :=
  Request.batch [Request.item (JStr "1") (JStr "1.5");
                 Request.item (JStr "1") (JStr "NaN");
                 Request.item (JStr "1") (JStr "1.1")].

(** ** Whole words

    What the proofs about [replace_word] speak of: words, the maximal word
    at the head of a text, and whether a name occurs in a text as a whole
    word. *)

Fixpoint all_word (s : string) : bool :=
  match s with
  | EmptyString => true
  | String c s' => is_word c && all_word s'
  end.

(** A name that [\bname\b] can match: not empty, made of word characters. *)
Definition wordy (name : string) : Prop :=
  name <> "" /\ all_word name = true.

(** The longest prefix of [s] made of word characters, and what follows. *)
Fixpoint span_word (s : string) : string * string :=
  match s with
  | EmptyString => (EmptyString, EmptyString)
  | String c s' =>
      if is_word c
      then let (w, r) := span_word s' in (String c w, r)
      else (EmptyString, s)
  end.

(** Does [/\bname\b/] match somewhere in [s]?  [prev] is as in
    [replace_word_from]. *)
Fixpoint occurs (name : string) (prev : bool) (s : string) : bool :=
  match s with
  | EmptyString => false
  | String c s' => word_match_here name prev s || occurs name (is_word c) s'
  end.

(** A replacement text in front of a word boundary that brings no whole
    word [m] with it. *)
Definition inert (m rep : string) : Prop :=
  forall tail, starts_with_word tail = false ->
               occurs m false (rep ++ tail) = occurs m false tail.

(** [rep] reads [int.frac] with two non-empty words other than [m]. *)
Definition inert_check (m rep : string) : bool :=
  match split_point rep with
  | (int, Some frac) =>
      all_word int && negb (String.eqb int "")
      && all_word frac && negb (String.eqb frac "")
      && negb (String.eqb m int) && negb (String.eqb m frac)
  | _ => false
  end.

(** The hyperbolic functions: in the supported set of the specification,
    not in the list [calculateComplexity] counts. *)
Definition hyperbolic_names : list string := ["sinh"; "cosh"; "tanh"].

(** ** What a batch response reports *)

(** The indices a response speaks of: those of its results, then those of
    its errors. *)
Definition reported (results : list Server.Entry) (errors : list ErrorEntry.t)
  : list Z :=
  (map (fun r => Z.of_nat (Server.index r)) results
   ++ map ErrorEntry.index errors)%list.

(** The indices [0 .. n-1] of a submitted array of [n] items. *)
Definition submitted (n : nat) : list Z := map Z.of_nat (seq 0 n).

(** The four shapes of a per-item error message: the two of the parser and
    the two prefixes of the evaluator and the scorer. *)
Definition error_kind (message : string) : Prop :=
  message = "Missing expression field (tried: expression, expr, formula)"
  \/ message = "Missing target value field (tried: value, target, computed, result)"
  \/ (exists m, message = "Expression evaluation failed: " ++ m)
  \/ (exists m, message = "Quality calculation failed: " ++ m).

(** An error entry of a batch: a position of the array, a text for the
    expression and a message of one of the four shapes. *)
Definition item_error (n : nat) (e : ErrorEntry.t) : Prop :=
  (0 <= ErrorEntry.index e < Z.of_nat n)%Z
  /\ (exists text, ErrorEntry.expression e = JStr text /\ text <> "")
  /\ error_kind (ErrorEntry.error e).

(** A result as the item at its index of the submitted array gave it: the
    expression is the string the parser picked, the target what
    [toString()] returns on the value it picked. *)
Definition echoes (items : list JSValue) (r : Server.Entry) : Prop :=
  exists approx,
    nth_error items (Server.index r) = Some approx
    /\ Parser.pick_expression approx = JStr (Server.expression r)
    /\ Server.expression r <> ""
    /\ JS.truthy (Parser.pick_targetValue approx) = true
    /\ JS.toString "targetValue" (Parser.pick_targetValue approx)
       = Ok (Server.target r)
    /\ JS.toString "targetName" (Parser.pick_targetName approx)
       = Ok (Server.targetName r)
    /\ JS.toString "description" (Parser.pick_description approx)
       = Ok (Server.description r).

(** The same for what [parseBatch] returns: the indices of the parsed
    items, then those of the parse errors. *)
Definition accounted (parsed : list Parser.Item) (errors : list ErrorEntry.t)
  : list Z :=
  (map (fun p => Z.of_nat (Parser.index p)) parsed
   ++ map ErrorEntry.index errors)%list.

(** A parsed item as the item at its index of the submitted array gave
    it. *)
Definition parsed_echo (items : list JSValue) (p : Parser.Item) : Prop :=
  exists approx,
    nth_error items (Parser.index p) = Some approx
    /\ Parser.pick_expression approx = JStr (Parser.expression p)
    /\ Parser.expression p <> ""
    /\ JS.truthy (Parser.pick_targetValue approx) = true
    /\ JS.toString "targetValue" (Parser.pick_targetValue approx)
       = Ok (Parser.targetValue p)
    /\ JS.toString "targetName" (Parser.pick_targetName approx)
       = Ok (Parser.targetName p)
    /\ JS.toString "description" (Parser.pick_description approx)
       = Ok (Parser.description p).

(** A batch with a result, an evaluation error and a parse error. *)
Definition mixed_batch : JSValue :=
  Request.batch [Request.item (JStr "1") (JStr "0");
                 Request.item (JStr "x") (JStr "5");
                 Request.item (JStr "3") (JNum 0)].

Definition mixed_results : list Server.Entry :=
  Eval vm_compute in
    match Server.evaluate_batch Reference.lib mixed_batch with
    | Server.BatchOk results _ _ => results
    | _ => []
    end.

Definition mixed_errors : list ErrorEntry.t :=
  Eval vm_compute in
    match Server.evaluate_batch Reference.lib mixed_batch with
    | Server.BatchOk _ errors _ => errors
    | _ => []
    end.

Definition mixed_summary : Server.Summary :=
  {| Server.total := 3;
     Server.successful := 1;
     Server.failed := 2;
     Server.bestScore :=
       match mixed_results with
       | best :: _ => score (Server.quality best)
       | [] => Num.of_nat 0
       end |}.

(** Rounding to the working precision keeps zero and nothing else at
    zero (no underflow). *)
Definition round_exact_at_zero (L : Lib) : Prop :=
  forall q, round L q == 0 <-> q == 0.

(** Does the literal [pat] occur somewhere in [s]? *)
Fixpoint occurs_literal (pat s : string) : bool :=
  starts_with pat s
  || match s with
     | EmptyString => false
     | String _ s' => occurs_literal pat s'
     end.

(** ** The input panel of the client ([InputPanel.handleEvaluate]) *)

Module Client.

(** What [handleEvaluate] does with the value [JSON.parse] returned: it
    shows a parse error, or hands the array to [onEvaluate], which posts it
    to [/api/evaluate-batch]. *)
Inductive Outcome :=
| ParseError (message : string)
| Evaluate (approximations : JSValue).




End Client.

(** ** The handler of [/api/ai-evaluate] *)

Module AI.

(** [{ ...v }]: the own enumerable properties of [v]. *)
Fixpoint indexed (i : nat) (l : list JSValue) : list (string * JSValue) :=
  match l with
  | [] => []
  | x :: rest => (JS.string_of_Z (Z.of_nat i), x) :: indexed (S i) rest
  end.

Fixpoint chars (s : string) : list JSValue :=
  match s with
  | EmptyString => []
  | String c s' => JStr (String c EmptyString) :: chars s'
  end.

Definition spread (v : JSValue) : list (string * JSValue) :=
  match v with
  | JObj fields => fields
  | JArr items => indexed 0 items
  | JStr s => indexed 0 (chars s)
  | _ => []
  end.

(** A property written after the spread: it takes the place of a property
    of the same name, or comes last. *)
Fixpoint assign (k : string) (v : JSValue) (fields : list (string * JSValue))
  : list (string * JSValue) :=
  match fields with
  | [] => [(k, v)]
  | (k', v') :: rest =>
      if String.eqb k k' then (k, v) :: rest else (k', v') :: assign k v rest
  end.

(** The [aiEvaluation] pushed when the call for an item was rejected. *)
Definition failed_evaluation (message : string) : JSValue :=
  JObj [("accuracy", JStr ("Evaluation failed: " ++ message));
        ("efficiency", JStr "Unable to analyze");
        ("novelty", JStr "Unable to analyze");
        ("stability", JStr "Unable to analyze");
        ("generality", JStr "Unable to analyze");
        ("recommendation", JStr "Needs improvement")].

(** The 200 response without its clock readings ([evaluationTimeMs],
    [timestamp]). *)
Record Metadata := {
  totalApproximations : nat;
  model : JSValue;
  provider : string;
  aiEnabled : bool
}.

Inductive Response :=
| Status400 (error : string)
| Status500 (error : string) (enabled : bool)
| Evaluated (results : list JSValue) (metadata : Metadata).

Section WithService.

(** Whether [OPENROUTER_API_KEY] is set. *)
Variable key : bool.

(** [await aiEvaluator.evaluateApproximation(result, model)]: the value
    the promise resolves to, or the message of its rejection. *)
Variable evaluateApproximation : JSValue -> JSValue -> Result JSValue.

(** One round of the loop: the object pushed for [results[i]]. *)
Definition annotate (selectedModel : JSValue) (i : nat) (result : JSValue)
  : JSValue :=
  match evaluateApproximation result selectedModel with
  | Ok aiEvaluation =>
      JObj (assign "evaluationIndex" (JNum (inject_Z (Z.of_nat i)))
             (assign "aiEvaluation" aiEvaluation (spread result)))
  | Throw message =>
      JObj (assign "evaluationError" (JStr message)
             (assign "evaluationIndex" (JNum (inject_Z (Z.of_nat i)))
                (assign "aiEvaluation" (failed_evaluation message)
                        (spread result))))
  end.

Fixpoint annotate_from (selectedModel : JSValue) (i : nat) (results : list JSValue)
  : list JSValue :=
  match results with
  | [] => []
  | result :: rest =>
      annotate selectedModel i result :: annotate_from selectedModel (S i) rest
  end.

(** [app.post('/api/ai-evaluate', ...)] on the request body; the pauses
    between the calls are left out. *)
Definition ai_evaluate (body : JSValue) : Response :=
  match body with
  | JNull | JUndefined =>
      Status500 "Internal server error during AI evaluation" key
  | _ =>
      let results := JS.prop body "results" in
      let selectedModel :=
        JS.or (JS.prop body "model") (JStr "anthropic/claude-3.5-sonnet") in
      match results with
      | JArr items =>
          if negb key
          then Status500
                 "OpenRouter API key not configured. Please set OPENROUTER_API_KEY in environment variables."
                 false
          else Evaluated (annotate_from selectedModel 0 items)
                         {| totalApproximations := List.length items;
                            model := selectedModel;
                            provider := "OpenRouter";
                            aiEnabled := true |}
      | _ => Status400 "Invalid request: results array is required"
      end
  end.

End WithService.

(** The properties the handler writes. *)
Definition annotation_keys : list string :=
  ["aiEvaluation"; "evaluationIndex"; "evaluationError"].

End AI.

(** * Properties *)

(** ** Strings *)

Lemma lower_char_idempotent (c : ascii) : lower_char (lower_char c) = lower_char c.
Proof.
  destruct c as [[] [] [] [] [] [] [] []]; reflexivity.
Qed.

Lemma toLowerCase_idempotent (s : string) : toLowerCase (toLowerCase s) = toLowerCase s.
Proof.
  induction s as [| c s IH]; simpl.
  - reflexivity.
  - now rewrite lower_char_idempotent, IH.
Qed.

Lemma toLowerCase_app (s t : string) :
  toLowerCase (s ++ t) = toLowerCase s ++ toLowerCase t.
Proof.
  induction s as [| c s IH]; simpl; [reflexivity | now rewrite IH].
Qed.

Lemma clean_mpmath_lowercase (s : string) :
  MathEvaluator.clean_mpmath (toLowerCase s) = MathEvaluator.clean_mpmath s.
Proof.
  unfold MathEvaluator.clean_mpmath.
  now rewrite toLowerCase_idempotent.
Qed.

Lemma prepare_lowercase (s : string) (constants : list (string * string)) :
  MathEvaluator.prepare (toLowerCase s) constants = MathEvaluator.prepare s constants.
Proof.
  unfold MathEvaluator.prepare.
  now rewrite clean_mpmath_lowercase.
Qed.

(** The cleaning of a text that starts with a call in mpmath syntax: the
    call is rewritten and the cleaning goes on behind it. *)
Lemma clean_mpmath_ln (s : string) :
  MathEvaluator.clean_mpmath ("mp.ln(" ++ s) = "log(" ++ MathEvaluator.clean_mpmath s.
Proof.
  unfold MathEvaluator.clean_mpmath, replace_all.
  rewrite toLowerCase_app.
  reflexivity.
Qed.

Lemma clean_mpmath_log (s : string) :
  MathEvaluator.clean_mpmath ("mp.log(" ++ s) = "log(" ++ MathEvaluator.clean_mpmath s.
Proof.
  unfold MathEvaluator.clean_mpmath, replace_all.
  rewrite toLowerCase_app.
  reflexivity.
Qed.

(** ** The evaluator *)

(** C2, as stated, fails on [abs(7)]: [abs] is not in the supported set,
    yet the expression is handed to mathjs as it is and evaluates to 7. *)
Lemma function_outside_the_set_evaluates :
  MathEvaluator.prepare "abs(7)" [] = "abs(7)"
  /\ MathEvaluator.evaluateExpression Reference.lib "abs(7)" [] = Ok (DFin 7).
Proof.
  split; reflexivity.
Qed.

(** ** Decimal arithmetic on zero *)

Lemma Qabs_zero_iff (q : Q) : Qabs q == 0 <-> q == 0.
Proof.
  destruct q as [n d].
  unfold Qeq, Qabs; simpl.
  lia.
Qed.

Lemma is_zero_Qabs (q : Q) : Dec.is_zero (Qabs q) = Dec.is_zero q.
Proof.
  unfold Dec.is_zero.
  apply eq_true_iff_eq.
  rewrite !Qeq_bool_iff.
  apply Qabs_zero_iff.
Qed.

Lemma negative_Qabs (q : Q) : Dec.negative (Qabs q) = false.
Proof.
  unfold Dec.negative.
  apply negb_false_iff, Qle_bool_iff, Qabs_nonneg.
Qed.

Lemma is_zero_true (q : Q) : Dec.is_zero q = true <-> q == 0.
Proof.
  apply Qeq_bool_iff.
Qed.

(** The relative error over a target of zero, whatever the rounding. *)
Lemma dividedBy_zero (L : Lib) (x : Decimal) (t : Q) :
  t == 0 ->
  Dec.dividedBy L (Dec.abs x) (Dec.abs (DFin t))
  = if Dec.is_nan (Dec.abs x) || Dec.equals_zero (Dec.abs x)
    then DNaN else DInf false.
Proof.
  intros Ht.
  assert (Dec.is_zero (Qabs t) = true) as Hz.
  { rewrite is_zero_Qabs. now apply is_zero_true. }
  destruct x as [a | s |]; simpl; rewrite ?Hz, ?negative_Qabs.
  - now destruct (Dec.is_zero (Qabs a)).
  - reflexivity.
  - reflexivity.
Qed.

(** ** The batch driver *)

(** C1, as the code has it: an item whose expression evaluates and whose
    target is zero raises no scoring error.  It is appended to the results,
    nothing is appended to the errors, and its [relativeError] reads
    [Infinity], or [NaN] when the absolute error is zero or NaN. *)
Theorem zero_target_is_scored_not_rejected
        (L : Lib) (acc : list Server.Entry * list ErrorEntry.t)
        (item : Parser.Item) (computed : Decimal) (t : Q)
        (Hcomputed : MathEvaluator.evaluateExpression L (Parser.expression item) []
                     = Ok computed)
        (Htarget : Decimal_parse L (Parser.targetValue item) = Ok (DFin t))
        (Hzero : t == 0) :
  exists entry : Server.Entry,
    Server.evaluate_step L acc item = ((fst acc ++ [entry])%list, snd acc)
    /\ Server.index entry = Parser.index item
    /\ relativeError (Server.quality entry)
       = let absErr := Dec.abs (Dec.minus L computed (DFin t)) in
         if Dec.is_nan absErr || Dec.equals_zero absErr then "NaN" else "Infinity".
Proof.
  unfold Server.evaluate_step, Server.evaluate_item.
  rewrite Hcomputed. simpl.
  unfold MathEvaluator.calculateApproximationQuality.
  rewrite Htarget. simpl.
  eexists. split; [reflexivity |]. split; [reflexivity |].
  simpl relativeError.
  rewrite (dividedBy_zero L _ t Hzero).
  now destruct (Dec.is_nan _ || Dec.equals_zero _).
Qed.

Lemma zero_target_is_scored_not_rejected_witness :
  exists entry : Server.Entry,
    Server.evaluate_step Reference.lib ([], [])
      {| Parser.index := 0; Parser.expression := "1"; Parser.targetValue := "0";
         Parser.targetName := "unknown"; Parser.description := "" |}
    = ([entry], [])
    /\ Server.index entry = 0%nat
    /\ relativeError (Server.quality entry) = "Infinity".
Proof.
  exact (zero_target_is_scored_not_rejected
           Reference.lib ([], [])
           {| Parser.index := 0; Parser.expression := "1"; Parser.targetValue := "0";
              Parser.targetName := "unknown"; Parser.description := "" |}
           (DFin 1) 0 eq_refl eq_refl (Qeq_refl 0)).
Defined.

(** C1, as stated, fails on the batch [[{ expression: "1", target: "0" }]]:
    the item is ranked with an infinite relative error and the errors list
    stays empty. *)
Lemma zero_target_item_is_ranked :
  match Server.evaluate_batch Reference.lib
          (Request.batch [Request.item (JStr "1") (JStr "0")]) with
  | Server.BatchOk [r] [] summary =>
      relativeError (Server.quality r) = "Infinity"
      /\ Server.successful summary = 1%nat /\ Server.failed summary = 0%nat
  | _ => False
  end.
Proof.
  vm_compute. repeat split.
Qed.

(** C8: a payload that is not an array is answered by [parseBatch] with no
    parsed item and the single error entry of index [-1]; the evaluation
    loop then has nothing to run on and leaves that one error.  (The HTTP
    handler rejects such a payload with status 400 before it calls the
    parser.) *)
Theorem non_array_payload_short_circuits
        (L : Lib) (payload : JSValue) (Hshape : JS.is_array payload = false) :
  let fatal := {| ErrorEntry.index := (-1)%Z;
                  ErrorEntry.expression := JUndefined;
                  ErrorEntry.error := "Input must be an array" |} in
  Parser.parseBatch payload = Ok ([], [fatal])
  /\ Server.evaluate_all L [] [fatal] = ([], [fatal])
  /\ exists message,
      Server.evaluate_batch L (JObj [("approximations", payload)])
      = Server.Status400 message.
Proof.
  destruct payload; try discriminate Hshape; simpl; repeat split;
    try (eexists; reflexivity).
  - destruct b; eexists; reflexivity.
  - destruct (Double.nonzero q); eexists; reflexivity.
  - destruct (negb (String.eqb s "")); eexists; reflexivity.
Qed.

Lemma non_array_payload_short_circuits_witness :
  Parser.parseBatch (JStr "22/7")
  = Ok ([], [{| ErrorEntry.index := (-1)%Z;
                ErrorEntry.expression := JUndefined;
                ErrorEntry.error := "Input must be an array" |}]).
Proof.
  exact (proj1 (non_array_payload_short_circuits Reference.lib (JStr "22/7") eq_refl)).
Defined.

(** What [parseApproximation] does on an item that is not [null]. *)
Lemma parseApproximation_not_nullish (approx : JSValue) (index : nat) :
  JS.nullish approx = false ->
  Parser.parseApproximation approx index
  = let expression := Parser.pick_expression approx in
    let targetValue := Parser.pick_targetValue approx in
    if JS.truthy expression && negb (Parser.is_string expression)
    then Throw "expression.substring is not a function"
    else
      logged <- (if JS.truthy targetValue
                 then JS.toString "targetValue" targetValue
                 else Ok "") ;;
      if negb (JS.truthy expression)
      then Ok (Parser.Missing "Missing expression field (tried: expression, expr, formula)")
      else if negb (JS.truthy targetValue)
      then Ok (Parser.Missing
                 "Missing target value field (tried: value, target, computed, result)")
      else
        expressionText <- JS.toString "expression" expression ;;
        targetText <- JS.toString "targetValue" targetValue ;;
        nameText <- JS.toString "targetName" (Parser.pick_targetName approx) ;;
        descriptionText <- JS.toString "description" (Parser.pick_description approx) ;;
        Ok (Parser.Fields expressionText targetText nameText descriptionText).
Proof.
  destruct approx; intros H; try discriminate H; reflexivity.
Qed.

Lemma parseApproximation_ok_not_nullish (approx : JSValue) (i : nat)
      (outcome : Parser.Outcome) :
  Parser.parseApproximation approx i = Ok outcome -> JS.nullish approx = false.
Proof.
  destruct approx; simpl; intros H; try discriminate H; reflexivity.
Qed.

(** C9, on the code: an item whose target is the number 0, present but
    falsy, is not classified as a missing field when its expression is a
    number: the logging line [expression.substring(0, 50)] throws before
    the validation is reached and the whole batch is answered with status
    500.  The same happens to an item whose expression is the empty string
    when its target is an object that has a [toString] property: the
    logging line [targetValue.toString()] throws. *)
Theorem falsy_field_is_lost_when_logging_throws (L : Lib) :
  Server.evaluate_batch L
    (Request.batch [Request.item (JNum 5) (JNum 0)])
  = Server.Status500 "expression.substring is not a function"
  /\ Server.evaluate_batch L
       (Request.batch [Request.item (JStr "") (JObj [("toString", JNum 1)])])
     = Server.Status500 "targetValue.toString is not a function".
Proof.
  split; reflexivity.
Qed.

(** X16: where [parseApproximation] returns, a required field that is
    falsy is a missing field: an item whose expression, read across
    [expression], [expr] and [formula], is falsy (absent, or the empty
    string), or whose target, read across [value], [target], [computed] and
    [result], is falsy (absent, or the number 0), comes back as a
    missing-field error; [parseBatch] appends an error entry with its
    index and leaves the parsed items, which are the only ones evaluated,
    as they were.  The single-evaluation handler answers a falsy
    [expression] or [target] with status 400. *)
Theorem falsy_field_of_a_parsed_item_is_missing
        (L : Lib) (approx : JSValue) (index : nat)
        (acc : list Parser.Item * list ErrorEntry.t)
        (outcome : Parser.Outcome)
        (Hparse : Parser.parseApproximation approx index = Ok outcome)
        (Hfalsy : JS.truthy (Parser.pick_expression approx) = false
                  \/ JS.truthy (Parser.pick_targetValue approx) = false) :
  (exists error,
      outcome = Parser.Missing error
      /\ Parser.parse_step acc approx index
         = Ok (fst acc,
               (snd acc ++ [{| ErrorEntry.index := Z.of_nat index;
                               ErrorEntry.expression :=
                                 JS.or (JS.prop approx "expression") (JStr "missing");
                               ErrorEntry.error := error |}])%list))
  /\ (JS.truthy (JS.prop approx "expression") && JS.truthy (JS.prop approx "target")
      = false ->
      Server.evaluate_single L approx
      = Server.Status400 "Missing required fields: expression and target").
Proof.
  pose proof (parseApproximation_ok_not_nullish _ _ _ Hparse) as Hitem.
  split.
  - assert (exists error, outcome = Parser.Missing error) as [error ->].
    { rewrite (parseApproximation_not_nullish approx index Hitem) in Hparse.
      cbv zeta in Hparse. unfold bind in Hparse.
      destruct (JS.truthy (Parser.pick_expression approx)
                && negb (Parser.is_string (Parser.pick_expression approx)));
        [discriminate |].
      destruct (if JS.truthy (Parser.pick_targetValue approx)
                then JS.toString "targetValue" (Parser.pick_targetValue approx)
                else Ok ""); [| discriminate].
      destruct Hfalsy as [He | Ht].
      - rewrite He in Hparse. simpl in Hparse. injection Hparse as <-.
        eexists; reflexivity.
      - rewrite Ht in Hparse. simpl in Hparse.
        destruct (negb (JS.truthy (Parser.pick_expression approx)));
          injection Hparse as <-; eexists; reflexivity. }
    exists error. split; [reflexivity |].
    unfold Parser.parse_step. now rewrite Hparse.
  - intros Hsingle.
    unfold Server.evaluate_single.
    apply andb_false_iff in Hsingle.
    destruct approx; try discriminate Hitem;
      (destruct Hsingle as [H | H]; rewrite H; simpl;
       rewrite ?orb_true_r; reflexivity).
Qed.

Lemma falsy_field_of_a_parsed_item_is_missing_witness :
  (exists error,
      Parser.Missing "Missing target value field (tried: value, target, computed, result)"
      = Parser.Missing error
      /\ Parser.parse_step ([], []) (Request.item (JStr "22/7") (JNum 0)) 3
         = Ok ([], [{| ErrorEntry.index := 3%Z;
                       ErrorEntry.expression := JStr "22/7";
                       ErrorEntry.error := error |}]))
  /\ Server.evaluate_single Reference.lib (Request.item (JStr "22/7") (JNum 0))
     = Server.Status400 "Missing required fields: expression and target".
Proof.
  destruct (falsy_field_of_a_parsed_item_is_missing
              Reference.lib (Request.item (JStr "22/7") (JNum 0)) 3 ([], [])
              (Parser.Missing
                 "Missing target value field (tried: value, target, computed, result)")
              eq_refl (or_intror eq_refl)) as [Hbatch Hsingle].
  split; [exact Hbatch | exact (Hsingle eq_refl)].
Defined.

(** C7, on the code: one item whose [expression] is a number, or one item
    that is [null], makes [parseApproximation] throw outside any per-item
    handler, and the whole batch is answered with status 500 although its
    other item is well formed. *)
Theorem malformed_item_aborts_the_batch (L : Lib) :
  Server.evaluate_batch L
    (Request.batch [Request.item (JNum 5) (JStr "5");
                      Request.item (JStr "1") (JStr "1")])
  = Server.Status500 "expression.substring is not a function"
  /\ Server.evaluate_batch L
       (Request.batch [JNull; Request.item (JStr "1") (JStr "1")])
     = Server.Status500 "Cannot convert undefined or null to object".
Proof.
  split; reflexivity.
Qed.

(** ** Accuracy digits *)

Lemma clamp_range (x : JSNumber) :
  Num.is_nan x = false ->
  exists q,
    Num.max (Num.of_nat 0) (Num.min (Num.of_nat MathEvaluator.precision) x) = NFin q
    /\ 0 <= q <= 50.
Proof.
  intros Hx.
  destruct x as [y | [] |]; try discriminate Hx; simpl.
  - destruct (Qle_bool (inject_Z 50) y) eqn:E50; simpl.
    + exists (inject_Z 50). split; [reflexivity | split; discriminate].
    + destruct (Qle_bool (inject_Z 0) y) eqn:E0.
      * exists y. split; [reflexivity |]. split.
        -- now apply Qle_bool_iff in E0.
        -- apply Qlt_le_weak, Qnot_le_lt. intros H.
           apply Qle_bool_iff in H. change (inject_Z 50) with 50 in E50. congruence.
      * exists (inject_Z 0). split; [reflexivity | split; discriminate].
  - exists (inject_Z 0). split; [reflexivity | split; discriminate].
  - exists (inject_Z 50). split; [reflexivity | split; discriminate].
Qed.

Lemma log_ten (L : Lib) : Dec.log L (Dec.of_nat 10) = DFin (log10 L 10).
Proof.
  reflexivity.
Qed.

Lemma log_ten_positive (L : Lib) :
  log_base_ten L ->
  Dec.is_zero (log10 L 10) = false /\ Dec.negative (log10 L 10) = false.
Proof.
  intros [H10 _]. split.
  - destruct (Dec.is_zero (log10 L 10)) eqn:E; [| reflexivity].
    apply is_zero_true in E. rewrite E in H10. discriminate H10.
  - unfold Dec.negative. apply negb_false_iff, Qle_bool_iff.
    rewrite H10. discriminate.
Qed.

(** Dividing the logarithm of an absolute error by that of ten changes
    neither its sign nor its integer part. *)
Lemma floor_of_log_quotient (L : Lib) (d : Decimal) :
  log_base_ten L ->
  Dec.floor (Dec.negated
               (Dec.dividedBy L (Dec.log L (Dec.abs d)) (Dec.log L (Dec.of_nat 10))))
  = Dec.floor (Dec.negated (Dec.log L (Dec.abs d))).
Proof.
  intros Hlog.
  destruct (log_ten_positive L Hlog) as [Hz Hn].
  destruct Hlog as (H10 & Hround & Hzero).
  rewrite log_ten.
  destruct d as [q | s |]; cbn [Dec.abs Dec.log].
  - rewrite negative_Qabs.
    destruct (Dec.is_zero (Qabs q)); cbn [Dec.dividedBy xorb];
      [now rewrite Hn |].
    destruct (Qeq_bool (Qabs q) 1); cbn [Dec.dividedBy]; rewrite Hz;
      cbn [Dec.negated Dec.floor]; do 2 f_equal; apply Qfloor_comp.
    + now rewrite Hzero.
    + now rewrite Hround.
  - cbn [Dec.dividedBy xorb]. now rewrite Hn.
  - reflexivity.
Qed.

Lemma log_abs_not_nan (L : Lib) (d : Decimal) :
  Dec.is_nan d = false -> Dec.is_nan (Dec.log L (Dec.abs d)) = false.
Proof.
  destruct d as [q | s |]; intros H; try discriminate H; simpl.
  - rewrite negative_Qabs.
    destruct (Dec.is_zero (Qabs q)); [reflexivity |].
    now destruct (Qeq_bool (Qabs q) 1).
  - reflexivity.
Qed.

(** C5: [calculateAccuracy] returns [floor(-log10(absoluteError))] clamped
    by [Math.max(0, Math.min(50, .))], the logarithm being the library's;
    the result lies between 0 and 50 whenever the absolute error is a
    number; and for an error of zero it is 50 whatever the library would
    answer for a logarithm, which it is not asked. *)
Theorem accuracy_is_clamped_floor_of_log
        (L : Lib) (d : Decimal) (Hlog : log_base_ten L) :
  let absErr := Dec.abs d in
  MathEvaluator.calculateAccuracy L absErr = Spec.accuracyDigits L absErr
  /\ (Dec.is_nan d = false ->
      exists q, MathEvaluator.calculateAccuracy L absErr = NFin q /\ 0 <= q <= 50)
  /\ (Dec.equals_zero absErr = true ->
      forall L' : Lib, MathEvaluator.calculateAccuracy L' absErr = Num.of_nat 50).
Proof.
  intros absErr.
  assert (MathEvaluator.calculateAccuracy L absErr = Spec.accuracyDigits L absErr) as Heq.
  { unfold MathEvaluator.calculateAccuracy, Spec.accuracyDigits, absErr.
    now rewrite floor_of_log_quotient. }
  split; [exact Heq |]. split.
  - intros Hnumber. rewrite Heq. unfold Spec.accuracyDigits.
    destruct (Dec.equals_zero absErr).
    + exists (inject_Z 50). split; [reflexivity | split; discriminate].
    + apply clamp_range.
      pose proof (log_abs_not_nan L d Hnumber) as Hl. fold absErr in Hl.
      now destruct (Dec.log L absErr).
  - intros Hzero L'. unfold MathEvaluator.calculateAccuracy. now rewrite Hzero.
Qed.

Lemma reference_log_base_ten : log_base_ten Reference.lib.
Proof.
  split; [reflexivity |]. split; [| reflexivity].
  intros q. cbn [round log10 Reference.lib].
  change (Reference.ceil_log10 10) with 1.
  rewrite Qred_correct. field.
Qed.

Lemma accuracy_is_clamped_floor_of_log_witness :
  MathEvaluator.calculateAccuracy Reference.lib (Dec.abs (DFin (- (13 # 10000))))
  = NFin 2
  /\ MathEvaluator.calculateAccuracy Reference.lib (Dec.abs (DFin 0)) = NFin 50.
Proof.
  destruct (accuracy_is_clamped_floor_of_log
              Reference.lib (DFin (- (13 # 10000))) reference_log_base_ten)
    as (Hformula & _ & _).
  destruct (accuracy_is_clamped_floor_of_log
              Reference.lib (DFin 0) reference_log_base_ten)
    as (_ & _ & Hzero).
  split.
  - rewrite Hformula. reflexivity.
  - exact (Hzero eq_refl Reference.lib).
Defined.

(** ** Ranking *)

Lemma sub_sign_antisym (x y : JSNumber) :
  Num.sub_sign y x = CompOpp (Num.sub_sign x y).
Proof.
  destruct x as [a | [] |], y as [b | [] |]; simpl; try reflexivity.
  symmetry. apply Qcompare_antisym.
Qed.

(** [x >= y] and [y >= z] give [x >= z] on numbers that are not NaN. *)
Lemma sub_sign_trans (x y z : JSNumber) :
  Num.is_nan y = false ->
  Num.sub_sign x y <> Lt -> Num.sub_sign y z <> Lt -> Num.sub_sign x z <> Lt.
Proof.
  destruct x as [a | [] |], y as [b | [] |], z as [c | [] |]; simpl;
    intros Hy Hxy Hyz; try discriminate; try congruence.
  intros Hxz.
  apply Qlt_alt in Hxz.
  assert (b <= a) as Hba by (apply Qnot_lt_le; intros H; now apply Qlt_alt in H).
  assert (c <= b) as Hcb by (apply Qnot_lt_le; intros H; now apply Qlt_alt in H).
  apply (Qlt_irrefl a).
  eapply Qlt_le_trans; [exact Hxz |].
  now apply Qle_trans with b.
Qed.

Lemma insert_perm {A : Type} (cmp : A -> A -> comparison) (x : A) (l : list A) :
  Permutation (Server.insert cmp x l) (x :: l).
Proof.
  induction l as [| y l IH]; simpl.
  - reflexivity.
  - destruct (cmp x y); try reflexivity.
    rewrite IH. apply perm_swap.
Qed.

Lemma sort_perm {A : Type} (cmp : A -> A -> comparison) (l : list A) :
  Permutation (Server.sort cmp l) l.
Proof.
  induction l as [| x l IH]; simpl.
  - reflexivity.
  - rewrite insert_perm. now constructor.
Qed.

Lemma ranks_before_of_ge (x z : Server.Entry) :
  Num.sub_sign (score (Server.quality x)) (score (Server.quality z)) <> Lt ->
  (Server.index x < Server.index z)%nat ->
  ranks_before x z.
Proof.
  unfold ranks_before. cbv zeta.
  destruct (Num.sub_sign _ _); intros Hge Hlt; [right | congruence | left]; auto.
Qed.

Lemma ranks_before_ge (y z : Server.Entry) :
  ranks_before y z ->
  Num.sub_sign (score (Server.quality y)) (score (Server.quality z)) <> Lt.
Proof.
  unfold ranks_before. cbv zeta.
  intros [H | [H _]]; rewrite H; discriminate.
Qed.

Lemma insert_ranked (x : Server.Entry) (l : list Server.Entry) :
  StronglySorted ranks_before l ->
  Forall scored l ->
  Forall (fun y => (Server.index x < Server.index y)%nat) l ->
  StronglySorted ranks_before (Server.insert Server.by_score x l).
Proof.
  induction l as [| y l IH]; intros Hsorted Hscored Hindex; simpl.
  - repeat constructor.
  - apply StronglySorted_inv in Hsorted as [Hsorted Hy].
    apply Forall_cons_iff in Hscored as [Hsy Hscored].
    apply Forall_cons_iff in Hindex as [Hxy Hindex].
    assert (Server.by_score x y <> Gt ->
            Num.sub_sign (score (Server.quality x)) (score (Server.quality y)) <> Lt)
      as Hge.
    { unfold Server.by_score. rewrite (sub_sign_antisym (score (Server.quality x))).
      destruct (Num.sub_sign (score (Server.quality x)) _); simpl; congruence. }
    assert (Server.by_score x y <> Gt -> StronglySorted ranks_before (x :: y :: l))
      as Hfront.
    { intros Hcmp. specialize (Hge Hcmp).
      constructor; [now constructor |].
      constructor; [now apply ranks_before_of_ge |].
      rewrite Forall_forall in *. intros z Hz.
      apply ranks_before_of_ge; [| now apply Hindex].
      apply sub_sign_trans with (score (Server.quality y)); auto.
      now apply ranks_before_ge, Hy. }
    destruct (Server.by_score x y) eqn:Hcmp;
      try (apply Hfront; discriminate).
    constructor; [now apply IH |].
    eapply Permutation_Forall; [symmetry; apply insert_perm |].
    constructor; [| exact Hy].
    left. exact Hcmp.
Qed.

Lemma sort_ranked (l : list Server.Entry) :
  StronglySorted lt (map Server.index l) ->
  Forall scored l ->
  StronglySorted ranks_before (Server.sort Server.by_score l).
Proof.
  induction l as [| x l IH]; intros Hindex Hscored; simpl in *.
  - constructor.
  - apply StronglySorted_inv in Hindex as [Hindex Hx].
    apply Forall_cons_iff in Hscored as [_ Hscored].
    apply insert_ranked.
    + now apply IH.
    + eapply Permutation_Forall; [symmetry; apply sort_perm | exact Hscored].
    + eapply Permutation_Forall; [symmetry; apply sort_perm |].
      now rewrite Forall_map in Hx.
Qed.

(** The evaluation loop appends, in order, the results of the items that
    evaluate. *)
Lemma evaluate_all_results (L : Lib) (parsed : list Parser.Item)
      (acc : list Server.Entry * list ErrorEntry.t) :
  fst (fold_left (Server.evaluate_step L) parsed acc)
  = (fst acc ++ successes L parsed)%list.
Proof.
  revert acc. induction parsed as [| item parsed IH]; intros acc; simpl.
  - now rewrite app_nil_r.
  - rewrite IH. unfold Server.evaluate_step.
    destruct (Server.evaluate_item L item); simpl.
    + now rewrite <- app_assoc.
    + reflexivity.
Qed.

Lemma evaluate_item_index (L : Lib) (item : Parser.Item) (entry : Server.Entry) :
  Server.evaluate_item L item = Ok entry ->
  Server.index entry = Parser.index item.
Proof.
  unfold Server.evaluate_item, bind.
  destruct (MathEvaluator.evaluateExpression _ _ _); [| discriminate].
  destruct (MathEvaluator.calculateApproximationQuality _ _ _ _); [| discriminate].
  now intros [= <-].
Qed.

Lemma successes_increasing (L : Lib) (parsed : list Parser.Item) :
  StronglySorted lt (map Parser.index parsed) ->
  StronglySorted lt (map Server.index (successes L parsed)).
Proof.
  induction parsed as [| item parsed IH]; intros Hsorted; simpl in *.
  - constructor.
  - apply StronglySorted_inv in Hsorted as [Hsorted Hitem].
    specialize (IH Hsorted).
    destruct (Server.evaluate_item L item) as [entry |] eqn:E; simpl; [| exact IH].
    constructor; [exact IH |].
    rewrite (evaluate_item_index L item entry E).
    rewrite Forall_map in *. rewrite Forall_forall in *.
    intros r Hr. unfold successes in Hr. apply in_flat_map in Hr as (it & Hit & Hr).
    destruct (Server.evaluate_item L it) as [e |] eqn:E'; [| contradiction].
    destruct Hr as [<- | []].
    rewrite (evaluate_item_index L it e E'). now apply Hitem.
Qed.

(** [parseBatch] appends the items it accepts with their positions in the
    array, which grow. *)
Lemma parse_from_indices (items : list JSValue) :
  forall (i : nat) (acc acc' : list Parser.Item * list ErrorEntry.t),
    Parser.parse_from i items acc = Ok acc' ->
    exists l,
      fst acc' = (fst acc ++ l)%list
      /\ StronglySorted lt (map Parser.index l)
      /\ Forall (fun item => (i <= Parser.index item)%nat) l.
Proof.
  induction items as [| approx items IH]; intros i acc acc' H; simpl in H.
  - injection H as <-. exists []. rewrite app_nil_r. repeat constructor.
  - unfold bind in H.
    destruct (Parser.parse_step acc approx i) as [acc1 |] eqn:Hstep; [| discriminate].
    apply IH in H as (l & Hl & Hsorted & Hge).
    assert (Forall (fun item => (i <= Parser.index item)%nat) l) as Hge'.
    { eapply Forall_impl; [| exact Hge]. simpl. intros; lia. }
    unfold Parser.parse_step, bind in Hstep.
    destruct (Parser.parseApproximation approx i) as [[error | e tv tn d] |];
      try discriminate; injection Hstep as <-; simpl in Hl.
    + exists l. auto.
    + eexists (_ :: l). rewrite Hl, <- app_assoc. split; [reflexivity |].
      split; simpl.
      * constructor; [exact Hsorted |].
        rewrite Forall_map. eapply Forall_impl; [| exact Hge]. simpl. intros; lia.
      * constructor; [simpl; lia | exact Hge'].
Qed.

Lemma evaluate_batch_ok (L : Lib) (body : JSValue)
      (results : list Server.Entry) (errors : list ErrorEntry.t)
      (summary : Server.Summary) :
  Server.evaluate_batch L body = Server.BatchOk results errors summary ->
  exists items parsed parseErrors,
    JS.prop body "approximations" = JArr items
    /\ Parser.parseBatch (JArr items) = Ok (parsed, parseErrors)
    /\ results = Server.sort Server.by_score (successes L parsed).
Proof.
  unfold Server.evaluate_batch. intros H.
  assert (JS.nullish body = false) as Hbody by (now destruct body).
  remember (JS.prop body "approximations") as approximations eqn:Happ.
  assert ((if negb (JS.truthy approximations)
           then Server.Status400 "Invalid request: approximations array required"
           else if negb (JS.is_array approximations)
           then Server.Status400 "approximations must be an array"
           else
             match Parser.parseBatch approximations with
             | Throw message => Server.Status500 message
             | Ok (parsed, parseErrors) =>
                 let (unsorted, errors) := Server.evaluate_all L parsed parseErrors in
                 let results := Server.sort Server.by_score unsorted in
                 Server.BatchOk results errors
                   {| Server.total := Server.array_length approximations;
                      Server.successful := List.length results;
                      Server.failed := List.length errors;
                      Server.bestScore :=
                        match results with
                        | best :: _ => score (Server.quality best)
                        | [] => Num.of_nat 0
                        end |}
             end) = Server.BatchOk results errors summary) as H'.
  { destruct body; try discriminate Hbody; exact H. }
  clear H.
  destruct (negb (JS.truthy approximations)); [discriminate |].
  destruct approximations as [| | | | | items |]; try discriminate H'.
  simpl negb in H'. cbv iota in H'.
  destruct (Parser.parseBatch (JArr items)) as [[parsed parseErrors] |] eqn:Hparse;
    [| discriminate].
  exists items, parsed, parseErrors. split; [now symmetry |]. split; [exact Hparse |].
  pose proof (evaluate_all_results L parsed ([], parseErrors)) as Hres.
  unfold Server.evaluate_all in H'.
  destruct (fold_left _ parsed _) as [unsorted errs].
  simpl in Hres. subst unsorted.
  now injection H' as <- _ _.
Qed.

(** C6, as the code has it: the results of a batch, when each carries a
    score that is a number, are in descending order of score, and two
    results of equal score are in the order of their indices in the
    submitted array; they are the results of the items that evaluated, none
    lost or repeated.  Scores 10, 50, 50, 5 of items 1 to 4 rank as items
    2, 3, 1, 4. *)
Theorem ranked_by_score_then_submission_order
        (L : Lib) (body : JSValue)
        (results : list Server.Entry) (errors : list ErrorEntry.t)
        (summary : Server.Summary)
        (Hbatch : Server.evaluate_batch L body = Server.BatchOk results errors summary)
        (Hscored : Forall scored results) :
  StronglySorted ranks_before results
  /\ (exists items parsed parseErrors,
         JS.prop body "approximations" = JArr items
         /\ Parser.parseBatch (JArr items) = Ok (parsed, parseErrors)
         /\ Permutation results (successes L parsed))
  /\ map Server.index
         (Server.sort Server.by_score
            [scored_entry 1 10; scored_entry 2 50; scored_entry 3 50; scored_entry 4 5])
     = [2; 3; 1; 4]%nat.
Proof.
  destruct (evaluate_batch_ok L body results errors summary Hbatch)
    as (items & parsed & parseErrors & Happ & Hparse & ->).
  split; [| split; [| reflexivity]].
  - apply sort_ranked.
    + apply successes_increasing.
      simpl in Hparse.
      apply parse_from_indices in Hparse as (l & Hl & Hsorted & _).
      simpl in Hl. now subst l.
    + eapply Permutation_Forall; [apply sort_perm | exact Hscored].
  - exists items, parsed, parseErrors. repeat split; auto. apply sort_perm.
Qed.

Lemma tie_batch_response :
  Server.evaluate_batch Reference.lib tie_batch
  = Server.BatchOk tie_results [] tie_summary.
Proof.
  vm_compute. reflexivity.
Qed.

Lemma tie_results_scored : Forall scored tie_results.
Proof.
  repeat constructor.
Qed.

Lemma ranked_by_score_then_submission_order_witness :
  map Server.index tie_results = [1; 2; 0; 3]%nat
  /\ StronglySorted ranks_before tie_results.
Proof.
  split.
  - reflexivity.
  - exact (proj1 (ranked_by_score_then_submission_order
                    Reference.lib tie_batch tie_results [] tie_summary
                    tie_batch_response tie_results_scored)).
Defined.

(** C6, as stated, fails on a batch with a target [NaN]: the score of that
    item is NaN, the comparator reads every difference with it as zero,
    and the three results stay in the order submitted, a score below 1
    ahead of a score above 3. *)
Lemma nan_score_leaves_results_unranked :
  match Server.evaluate_batch Reference.lib nan_batch with
  | Server.BatchOk [a; b; c] [] _ =>
      map Server.index [a; b; c] = [0; 1; 2]%nat
      /\ Num.is_nan (score (Server.quality b)) = true
      /\ Num.leb (score (Server.quality a)) (NFin 1) = true
      /\ Num.leb (NFin 3) (score (Server.quality c)) = true
      /\ Num.sub_sign (score (Server.quality a)) (score (Server.quality c)) = Lt
  | _ => False
  end.
Proof.
  vm_compute. repeat split.
Qed.

(** ** Whole-word substitution *)

Lemma word_match_at_boundary (name : string) (p : bool) (rest : string) :
  wordy name -> starts_with_word rest = false -> word_match_here name p rest = false.
Proof.
  intros [Hne Hall] Hrest.
  unfold word_match_here.
  destruct name as [| a name]; [contradiction |].
  simpl in Hall. apply andb_true_iff in Hall as [Ha _].
  destruct rest as [| c rest]; simpl.
  - now rewrite andb_false_r.
  - simpl in Hrest.
    destruct (Ascii.eqb a c) eqn:E.
    + apply Ascii.eqb_eq in E. subst c. congruence.
    + simpl. now rewrite andb_false_r.
Qed.

(** At the start of a maximal word, [\bname\b] matches exactly when the
    word is [name]. *)
Lemma word_match_word (name w rest : string) :
  all_word name = true -> all_word w = true -> starts_with_word rest = false ->
  word_match_here name false (w ++ rest) = String.eqb name w.
Proof.
  unfold word_match_here. simpl negb. rewrite andb_true_l.
  revert w. induction name as [| a name IH]; intros w Hname Hw Hrest.
  - destruct w as [| c w]; simpl.
    + now rewrite Hrest.
    + simpl in Hw. apply andb_true_iff in Hw as [Hc _]. now rewrite Hc.
  - simpl in Hname. apply andb_true_iff in Hname as [Ha Hname].
    destruct w as [| c w].
    + apply (word_match_at_boundary (String a name) false rest) in Hrest.
      * unfold word_match_here in Hrest. simpl negb in Hrest.
        now rewrite andb_true_l in Hrest.
      * split; [discriminate | simpl; now rewrite Ha, Hname].
    + simpl in Hw. apply andb_true_iff in Hw as [_ Hw].
      simpl. rewrite <- andb_assoc. now rewrite IH.
Qed.

Lemma replace_inside_word (name rep w rest : string) :
  all_word w = true ->
  replace_word_from name rep true 0 (w ++ rest)
  = w ++ replace_word_from name rep true 0 rest.
Proof.
  induction w as [| c w IH]; intros Hw; simpl.
  - reflexivity.
  - simpl in Hw. apply andb_true_iff in Hw as [Hc Hw].
    unfold word_match_here. simpl. rewrite Hc. now rewrite IH.
Qed.

Lemma replace_at_boundary (name rep : string) (p : bool) (rest : string) :
  wordy name -> starts_with_word rest = false ->
  replace_word_from name rep p 0 rest = replace_word_from name rep false 0 rest.
Proof.
  intros Hname Hrest.
  destruct rest as [| c rest]; simpl; [reflexivity |].
  now rewrite !(word_match_at_boundary name _ (String c rest) Hname Hrest).
Qed.

Lemma replace_keeps_boundary (name rep : string) (p : bool) (rest : string) :
  wordy name -> starts_with_word rest = false ->
  starts_with_word (replace_word_from name rep p 0 rest) = false.
Proof.
  intros Hname Hrest.
  destruct rest as [| c rest]; simpl; [reflexivity |].
  now rewrite (word_match_at_boundary name _ (String c rest) Hname Hrest).
Qed.

Lemma replace_skip (name rep u rest : string) (p : bool) :
  wordy name -> starts_with_word rest = false ->
  replace_word_from name rep p (length u) (u ++ rest)
  = replace_word_from name rep false 0 rest.
Proof.
  intros Hname Hrest. revert p.
  induction u as [| c u IH]; intros p; simpl.
  - now apply replace_at_boundary.
  - apply IH.
Qed.

Lemma replace_matching_word (name rep rest : string) :
  wordy name -> starts_with_word rest = false ->
  replace_word_from name rep false 0 (name ++ rest)
  = rep ++ replace_word_from name rep false 0 rest.
Proof.
  intros Hname Hrest.
  pose proof (word_match_word name name rest (proj2 Hname) (proj2 Hname) Hrest) as Hm.
  rewrite String.eqb_refl in Hm.
  destruct Hname as [Hne Hall].
  destruct name as [| a name]; [contradiction |].
  change (String a name ++ rest) with (String a (name ++ rest)) in *.
  cbn [replace_word_from]. rewrite Hm.
  f_equal.
  replace (length (String a name) - 1)%nat with (length name) by (simpl; lia).
  apply replace_skip; [split; assumption | exact Hrest].
Qed.

Lemma replace_other_word (name rep w rest : string) :
  wordy name -> all_word w = true -> w <> "" -> w <> name ->
  starts_with_word rest = false ->
  replace_word_from name rep false 0 (w ++ rest)
  = w ++ replace_word_from name rep false 0 rest.
Proof.
  intros Hname Hw Hne Hdiff Hrest.
  pose proof (word_match_word name w rest (proj2 Hname) Hw Hrest) as Hm.
  assert (String.eqb name w = false) as Hneq.
  { apply String.eqb_neq. congruence. }
  rewrite Hneq in Hm.
  destruct w as [| c w]; [contradiction |].
  change (String c w ++ rest) with (String c (w ++ rest)) in *.
  cbn [replace_word_from]. rewrite Hm.
  simpl in Hw. apply andb_true_iff in Hw as [Hc Hw].
  rewrite Hc, replace_inside_word by exact Hw.
  simpl. f_equal. f_equal. now apply replace_at_boundary.
Qed.

Lemma replace_non_word (name rep : string) (p : bool) (c : ascii) (s : string) :
  wordy name -> is_word c = false ->
  replace_word_from name rep p 0 (String c s)
  = String c (replace_word_from name rep false 0 s).
Proof.
  intros Hname Hc. cbn [replace_word_from].
  rewrite (word_match_at_boundary name p (String c s) Hname Hc).
  now rewrite Hc.
Qed.

Lemma occurs_inside_word (m w rest : string) :
  all_word w = true -> occurs m true (w ++ rest) = occurs m true rest.
Proof.
  induction w as [| c w IH]; intros Hw; simpl.
  - reflexivity.
  - simpl in Hw. apply andb_true_iff in Hw as [Hc Hw].
    unfold word_match_here. simpl. rewrite Hc. now apply IH.
Qed.

Lemma occurs_at_boundary (m : string) (p : bool) (rest : string) :
  wordy m -> starts_with_word rest = false ->
  occurs m p rest = occurs m false rest.
Proof.
  intros Hm Hrest.
  destruct rest as [| c rest]; simpl; [reflexivity |].
  now rewrite !(word_match_at_boundary m _ (String c rest) Hm Hrest).
Qed.

Lemma occurs_word (m w rest : string) :
  wordy m -> all_word w = true -> w <> "" -> starts_with_word rest = false ->
  occurs m false (w ++ rest) = String.eqb m w || occurs m false rest.
Proof.
  intros Hm Hw Hne Hrest.
  pose proof (word_match_word m w rest (proj2 Hm) Hw Hrest) as Hmatch.
  destruct w as [| c w]; [contradiction |].
  change (String c w ++ rest) with (String c (w ++ rest)) in *.
  cbn [occurs]. rewrite Hmatch.
  simpl in Hw. apply andb_true_iff in Hw as [Hc Hw].
  rewrite Hc, occurs_inside_word by exact Hw.
  f_equal. now apply occurs_at_boundary.
Qed.

Lemma occurs_non_word (m : string) (p : bool) (c : ascii) (s : string) :
  wordy m -> is_word c = false ->
  occurs m p (String c s) = occurs m false s.
Proof.
  intros Hm Hc. cbn [occurs].
  rewrite (word_match_at_boundary m p (String c s) Hm Hc).
  now rewrite Hc.
Qed.

(** A text with no whole-word occurrence of [name] is left as it is. *)
Lemma replace_without_occurrence (name rep : string) (s : string) :
  forall p, occurs name p s = false -> replace_word_from name rep p 0 s = s.
Proof.
  induction s as [| c s IH]; intros p H; simpl in *.
  - reflexivity.
  - apply orb_false_iff in H as [Hhere Hlater].
    rewrite Hhere. f_equal. now apply IH.
Qed.

Lemma span_word_spec (s : string) :
  s = fst (span_word s) ++ snd (span_word s)
  /\ all_word (fst (span_word s)) = true
  /\ starts_with_word (snd (span_word s)) = false.
Proof.
  induction s as [| c s IH]; simpl.
  - repeat split.
  - destruct (is_word c) eqn:Hc.
    + destruct (span_word s) as [w r]. simpl in *.
      destruct IH as (Hs & Hw & Hr).
      repeat split; [now rewrite <- Hs | now rewrite Hc | exact Hr].
    + simpl. repeat split. exact Hc.
Qed.

Lemma length_append (s t : string) : length (s ++ t) = (length s + length t)%nat.
Proof.
  induction s as [| c s IH]; simpl; [reflexivity | now rewrite IH].
Qed.

(** After [name] has been replaced by a text that brings no whole word
    [m], [m] occurs as a whole word exactly where it did, unless it is
    [name] itself, which is gone. *)
Lemma occurs_after_replace (m name rep : string) :
  wordy m -> wordy name -> inert m rep ->
  forall s,
    occurs m false (replace_word name rep s)
    = if String.eqb m name then false else occurs m false s.
Proof.
  intros Hm Hname Hrep s.
  unfold replace_word.
  remember (length s) as n eqn:Hn.
  revert s Hn. induction n as [n IH] using lt_wf_ind. intros s Hn.
  destruct s as [| c s].
  - simpl. now destruct (String.eqb m name).
  - destruct (is_word c) eqn:Hc.
    + destruct (span_word_spec (String c s)) as (Hs & Hw & Hr).
      set (w := fst (span_word (String c s))) in *.
      set (r := snd (span_word (String c s))) in *.
      assert (w <> "") as Hne.
      { unfold w. simpl. rewrite Hc. now destruct (span_word s). }
      assert (length r < n)%nat as Hlen.
      { rewrite Hn, Hs, length_append. destruct w; [contradiction | simpl; lia]. }
      specialize (IH _ Hlen r eq_refl).
      pose proof (replace_keeps_boundary name rep false r Hname Hr) as Hr'.
      rewrite Hs.
      destruct (String.eqb name w) eqn:Hnw.
      * apply String.eqb_eq in Hnw. subst w. rewrite <- Hnw.
        rewrite replace_matching_word, Hrep, IH by assumption.
        rewrite occurs_word by (try apply Hname; assumption).
        now destruct (String.eqb m name).
      * apply String.eqb_neq in Hnw.
        rewrite replace_other_word by (try assumption; congruence).
        rewrite !occurs_word, IH by assumption.
        destruct (String.eqb m name) eqn:Hmn; [| reflexivity].
        apply String.eqb_eq in Hmn. subst m.
        apply String.eqb_neq in Hnw. now rewrite Hnw.
    + rewrite replace_non_word, !occurs_non_word by assumption.
      apply (IH (length s)); [subst n; simpl; lia | reflexivity].
Qed.

Lemma split_point_spec (s int frac : string) :
  split_point s = (int, Some frac) -> s = int ++ String dot frac.
Proof.
  revert int. induction s as [| c s IH]; intros int H; simpl in H.
  - discriminate.
  - destruct (Ascii.eqb c dot) eqn:Hc.
    + apply Ascii.eqb_eq in Hc. injection H as <- <-. now subst c.
    + destruct (split_point s) as [a b].
      injection H as <- ->. simpl. f_equal. now apply IH.
Qed.

Lemma append_assoc (s t u : string) : (s ++ t) ++ u = s ++ (t ++ u).
Proof.
  induction s as [| c s IH]; simpl; [reflexivity | now rewrite IH].
Qed.

Lemma inert_check_sound (m rep : string) :
  wordy m -> inert_check m rep = true -> inert m rep.
Proof.
  intros Hm Hcheck tail Htail.
  unfold inert_check in Hcheck.
  destruct (split_point rep) as [int [frac |]] eqn:Hsplit; [| discriminate].
  apply split_point_spec in Hsplit. subst rep.
  repeat (apply andb_true_iff in Hcheck as [Hcheck ?]).
  repeat match goal with
         | H : negb _ = true |- _ => apply negb_true_iff in H
         end.
  rewrite append_assoc.
  change (String dot frac ++ tail) with (String dot (frac ++ tail)).
  rewrite occurs_word; try assumption; try reflexivity.
  - rewrite occurs_non_word by (assumption || reflexivity).
    rewrite occurs_word; try assumption.
    + match goal with
      | H1 : String.eqb m int = false, H2 : String.eqb m frac = false |- _ =>
          now rewrite H1, H2
      end.
    + now apply String.eqb_neq.
  - now apply String.eqb_neq.
Qed.

Ltac wordy_name := split; [discriminate | reflexivity].

Ltac inert_text := apply inert_check_sound; [wordy_name | vm_compute; reflexivity].

(** Once the built-in constants are substituted, none of their names is
    left as a whole word. *)
Lemma no_builtin_name_left (name : string) (text : string) :
  In name MathEvaluator.constant_names ->
  occurs name false (MathEvaluator.substitute CONSTANTS.table text) = false.
Proof.
  intros Hin.
  cbn [MathEvaluator.substitute CONSTANTS.table fold_left fst snd].
  simpl in Hin.
  repeat (destruct Hin as [<- | Hin]);
    try contradiction;
    repeat (rewrite occurs_after_replace; [| wordy_name | wordy_name | inert_text]);
    reflexivity.
Qed.

Lemma substitute_cons (key text : string) (rest : list (string * string))
      (s : string) :
  MathEvaluator.substitute ((key, text) :: rest) s
  = MathEvaluator.substitute rest (replace_word key text s).
Proof.
  reflexivity.
Qed.




(** ** Counting whole words *)

Lemma first_match_inside (names : list string) (s : string) :
  first_word_match names true s = None.
Proof.
  induction names as [| n names IH]; simpl; [reflexivity | exact IH].
Qed.

Lemma first_match_at_boundary (names : list string) (p : bool) (rest : string) :
  Forall wordy names -> starts_with_word rest = false ->
  first_word_match names p rest = None.
Proof.
  intros Hnames Hrest.
  induction Hnames as [| n names Hn _ IH]; simpl; [reflexivity |].
  now rewrite (word_match_at_boundary n p rest Hn Hrest).
Qed.

(** At the start of a maximal word the alternation matches exactly when
    the word is one of the names, and then it matches the word. *)
Lemma first_match_word (names : list string) (w rest : string) :
  Forall wordy names -> all_word w = true -> starts_with_word rest = false ->
  first_word_match names false (w ++ rest)
  = if existsb (String.eqb w) names then Some w else None.
Proof.
  intros Hnames Hw Hrest.
  induction Hnames as [| n names Hn _ IH]; simpl; [reflexivity |].
  rewrite (word_match_word n w rest (proj2 Hn) Hw Hrest), (String.eqb_sym w n).
  destruct (String.eqb n w) eqn:E; simpl; [| exact IH].
  apply String.eqb_eq in E. now subst.
Qed.

Lemma count_inside_word (names : list string) (w rest : string) :
  all_word w = true ->
  count_words_from names true 0 (w ++ rest) = count_words_from names true 0 rest.
Proof.
  induction w as [| c w IH]; intros Hw; simpl.
  - reflexivity.
  - simpl in Hw. apply andb_true_iff in Hw as [Hc Hw].
    rewrite first_match_inside, Hc. now apply IH.
Qed.

Lemma count_at_boundary (names : list string) (p : bool) (rest : string) :
  Forall wordy names -> starts_with_word rest = false ->
  count_words_from names p 0 rest = count_words_from names false 0 rest.
Proof.
  intros Hnames Hrest.
  destruct rest as [| c rest]; simpl; [reflexivity |].
  now rewrite !(first_match_at_boundary names _ (String c rest) Hnames Hrest).
Qed.

Lemma count_skip (names : list string) (u rest : string) (p : bool) :
  Forall wordy names -> starts_with_word rest = false ->
  count_words_from names p (length u) (u ++ rest)
  = count_words_from names false 0 rest.
Proof.
  intros Hnames Hrest. revert p.
  induction u as [| c u IH]; intros p; simpl.
  - now apply count_at_boundary.
  - apply IH.
Qed.

Lemma count_word (names : list string) (w rest : string) :
  Forall wordy names -> all_word w = true -> w <> "" ->
  starts_with_word rest = false ->
  count_words_from names false 0 (w ++ rest)
  = ((if existsb (String.eqb w) names then 1 else 0)
     + count_words_from names false 0 rest)%nat.
Proof.
  intros Hnames Hw Hne Hrest.
  pose proof (first_match_word names w rest Hnames Hw Hrest) as Hm.
  destruct w as [| c w]; [contradiction |].
  change (String c w ++ rest) with (String c (w ++ rest)) in *.
  cbn [count_words_from]. rewrite Hm.
  destruct (existsb _ names).
  - replace (length (String c w) - 1)%nat with (length w) by (simpl; lia).
    now rewrite count_skip.
  - simpl in Hw. apply andb_true_iff in Hw as [Hc Hw].
    rewrite Hc, count_inside_word by exact Hw.
    now rewrite count_at_boundary.
Qed.

Lemma count_non_word (names : list string) (p : bool) (c : ascii) (s : string) :
  Forall wordy names -> is_word c = false ->
  count_words_from names p 0 (String c s) = count_words_from names false 0 s.
Proof.
  intros Hnames Hc. cbn [count_words_from].
  rewrite (first_match_at_boundary names p (String c s) Hnames Hc).
  now rewrite Hc.
Qed.

(** Counting against two lists of names with no name in common is counting
    against each and adding up. *)
Lemma count_words_app (l1 l2 : list string) :
  Forall wordy l1 -> Forall wordy l2 ->
  (forall w, existsb (String.eqb w) l1 = true -> existsb (String.eqb w) l2 = false) ->
  forall s, count_words (l1 ++ l2) s = (count_words l1 s + count_words l2 s)%nat.
Proof.
  intros H1 H2 Hdisjoint s.
  assert (Forall wordy (l1 ++ l2)) as H12 by (apply Forall_app; now split).
  unfold count_words.
  remember (length s) as n eqn:Hn.
  revert s Hn. induction n as [n IH] using lt_wf_ind. intros s Hn.
  destruct s as [| c s]; [reflexivity |].
  destruct (is_word c) eqn:Hc.
  - destruct (span_word_spec (String c s)) as (Hs & Hw & Hr).
    set (w := fst (span_word (String c s))) in *.
    set (r := snd (span_word (String c s))) in *.
    assert (w <> "") as Hne.
    { unfold w. simpl. rewrite Hc. now destruct (span_word s). }
    assert (length r < n)%nat as Hlen.
    { rewrite Hn, Hs, length_append. destruct w; [contradiction | simpl; lia]. }
    specialize (IH _ Hlen r eq_refl).
    rewrite Hs, !count_word, IH, existsb_app by assumption.
    specialize (Hdisjoint w).
    destruct (existsb (String.eqb w) l1); simpl.
    + rewrite Hdisjoint by reflexivity. lia.
    + destruct (existsb (String.eqb w) l2); lia.
  - rewrite !count_non_word by assumption.
    apply (IH (length s)); [subst n; simpl; lia | reflexivity].
Qed.

Ltac wordy_names := repeat constructor; try discriminate.

(** C4, as the code has it: the complexity is the length plus twice the
    operator characters, three times the whole-word matches of [sqrt],
    [log], [ln], [exp], [sin], [cos], [tan], [asin], [acos] and [atan], the
    whole-word matches of the constant names and the numeric literals.  The
    hyperbolic functions are not counted: the formula over the whole
    supported set exceeds the code by three per whole-word [sinh], [cosh]
    or [tanh]. *)
Theorem complexity_counts_ten_functions (expression : string) :
  MathEvaluator.calculateComplexity expression
  = (length expression
     + 2 * count_chars "+-*/^()" expression
     + 3 * count_words ["sqrt"; "log"; "ln"; "exp"; "sin"; "cos"; "tan";
                        "asin"; "acos"; "atan"] expression
     + count_words ["pi"; "e"; "phi"; "gamma"; "sqrt2"; "sqrt3"; "ln2"] expression
     + count_numbers expression)%nat
  /\ Spec.complexity expression
     = (MathEvaluator.calculateComplexity expression
        + 3 * count_words hyperbolic_names expression)%nat.
Proof.
  split.
  - unfold MathEvaluator.calculateComplexity,
      MathEvaluator.function_names, MathEvaluator.constant_names.
    lia.
  - unfold Spec.complexity, MathEvaluator.calculateComplexity.
    change Spec.function_names
      with (MathEvaluator.function_names ++ hyperbolic_names)%list.
    rewrite count_words_app.
    + lia.
    + wordy_names.
    + wordy_names.
    + intros w Hw.
      apply existsb_exists in Hw as (n & Hin & Heq).
      apply String.eqb_eq in Heq. subst n.
      simpl in Hin.
      repeat (destruct Hin as [<- | Hin]; [reflexivity |]).
      contradiction.
Qed.

(** C4, as stated, fails on [sinh(1)]: the code counts no function and
    returns 12, where the formula over the whole supported set gives 15. *)
Lemma complexity_of_sinh_counts_no_function :
  MathEvaluator.calculateComplexity "sinh(1)" = 12%nat
  /\ Spec.complexity "sinh(1)" = 15%nat.
Proof.
  split; reflexivity.
Qed.

(** ** Batches of well-formed items

    Where no item makes the parser throw, every item of the batch ends in
    the results or in the errors, whatever happens to the others. *)

Lemma JSValue_nested_ind (P : JSValue -> Prop) :
  P JUndefined -> P JNull -> (forall b, P (JBool b)) -> (forall q, P (JNum q)) ->
  (forall s, P (JStr s)) ->
  (forall items, Forall P items -> P (JArr items)) ->
  (forall fields, P (JObj fields)) ->
  forall v, P v.
Proof.
  intros Hu Hn Hb Hq Hs Ha Ho.
  fix IH 1.
  intros [| | b | q | s | items | fields];
    [exact Hu | exact Hn | apply Hb | apply Hq | apply Hs | | apply Ho].
  apply Ha.
  induction items as [| x items IHitems]; constructor; [apply IH | exact IHitems].
Qed.

(** [String(v)] returns exactly on the printable values. *)
Lemma ToString_printable (v : JSValue) :
  JS.printable v = true <-> exists text, JS.ToString v = Ok text.
Proof.
  induction v as [| | b | q | s | items IH | fields] using JSValue_nested_ind;
    try (split; [intros _; simpl; eexists; reflexivity | reflexivity]).
  - destruct b; (split; [intros _; eexists; reflexivity | reflexivity]).
  - cbn [JS.printable JS.ToString].
    induction IH as [| x items Hx _ IHitems]; simpl.
    + split; [intros _; now exists "" | reflexivity].
    + assert (JS.printable x = true
              <-> exists text, match x with
                               | JUndefined | JNull => Ok ""
                               | _ => JS.ToString x
                               end = Ok text) as Hx'.
      { destruct x; try exact Hx; (split; [intros _; now exists "" | reflexivity]). }
      rewrite andb_true_iff, Hx', IHitems. clear Hx Hx' IHitems.
      destruct (match x with
                | JUndefined | JNull => Ok ""
                | _ => JS.ToString x
                end) as [head | m].
      * destruct items as [| y items].
        -- split; [intros _; now exists head | intros _; split; eexists; reflexivity].
        -- destruct (JS.join_with _ (y :: items)) as [tail | m].
           ++ split; [intros _; eexists; reflexivity
                     | intros _; split; eexists; reflexivity].
           ++ split; [intros [_ [text H]]; discriminate H
                     | intros [text H]; discriminate H].
      * split; [intros [[text H] _]; discriminate H | intros [text H]; discriminate H].
  - simpl. destruct (JS.has_key "toString" fields); simpl.
    + split; [discriminate | intros [text H]; discriminate H].
    + split; [intros _; eexists; reflexivity | reflexivity].
Qed.

(** [v.toString()] returns exactly on the printable values, and with the
    same text whatever the call is written like. *)
Lemma toString_printable (callee : string) (v : JSValue) :
  JS.nullish v = false ->
  (JS.printable v = true <-> exists text, JS.toString callee v = Ok text).
Proof.
  intros Hv.
  destruct v as [| | b | q | s | items | fields]; try discriminate Hv;
    try apply ToString_printable.
  simpl. destruct (JS.has_key "toString" fields); simpl.
  - split; [discriminate | intros [text H]; discriminate H].
  - split; [intros _; eexists; reflexivity | reflexivity].
Qed.

Lemma toString_callee (callee callee' : string) (v : JSValue) (text : string) :
  JS.toString callee v = Ok text -> JS.toString callee' v = Ok text.
Proof.
  destruct v as [| | b | q | s | items | fields]; simpl; try (intros H; exact H).
  destruct (JS.has_key "toString" fields); [discriminate | intros H; exact H].
Qed.

Lemma truthy_not_nullish (v : JSValue) : JS.truthy v = true -> JS.nullish v = false.
Proof.
  destruct v; simpl; intros H; try discriminate H; reflexivity.
Qed.

Lemma or_text_not_nullish (v : JSValue) (text : string) :
  JS.nullish (JS.or v (JStr text)) = false.
Proof.
  unfold JS.or. destruct (JS.truthy v) eqn:Hv; [now apply truthy_not_nullish | reflexivity].
Qed.

Lemma pick_targetName_not_nullish (approx : JSValue) :
  JS.nullish (Parser.pick_targetName approx) = false.
Proof.
  apply or_text_not_nullish.
Qed.

Lemma pick_description_not_nullish (approx : JSValue) :
  JS.nullish (Parser.pick_description approx) = false.
Proof.
  apply or_text_not_nullish.
Qed.

(** The parser returns exactly on the well-formed items. *)
Lemma parseApproximation_well_formed (approx : JSValue) (i : nat) :
  Request.well_formed approx = true
  <-> exists outcome, Parser.parseApproximation approx i = Ok outcome.
Proof.
  unfold Request.well_formed. cbv zeta.
  destruct (JS.nullish approx) eqn:Hitem.
  - split; [discriminate |].
    intros [outcome H]. apply parseApproximation_ok_not_nullish in H. congruence.
  - rewrite (parseApproximation_not_nullish approx i Hitem). cbv zeta.
    pose proof (toString_printable "targetValue" (Parser.pick_targetValue approx)) as Ht.
    pose proof (toString_printable "targetName" (Parser.pick_targetName approx)
                  (pick_targetName_not_nullish approx)) as Hn.
    pose proof (toString_printable "description" (Parser.pick_description approx)
                  (pick_description_not_nullish approx)) as Hd.
    destruct (JS.truthy (Parser.pick_expression approx)) eqn:He.
    + destruct (Parser.pick_expression approx) as [| | | | text | |] eqn:Hpick;
        try (simpl; split; [discriminate | intros [outcome H]; discriminate H]).
      simpl negb. simpl andb. cbv iota.
      destruct (JS.truthy (Parser.pick_targetValue approx)) eqn:Htruthy.
      * specialize (Ht (truthy_not_nullish _ Htruthy)).
        simpl negb. simpl orb. unfold bind.
        destruct (JS.toString "targetValue" (Parser.pick_targetValue approx))
          as [targetText | m].
        -- simpl JS.toString.
           destruct (JS.toString "targetName" (Parser.pick_targetName approx))
             as [nameText | m].
           ++ destruct (JS.toString "description" (Parser.pick_description approx))
                as [descriptionText | m].
              ** split; [intros _; eexists; reflexivity |].
                 intros _. rewrite (proj2 Ht), (proj2 Hn), (proj2 Hd);
                   [reflexivity | | |]; eexists; reflexivity.
              ** split; [| intros [outcome H]; discriminate H].
                 intros H. apply andb_true_iff in H as [_ H].
                 apply andb_true_iff in H as [_ H].
                 apply Hd in H as [text' H]. discriminate H.
           ++ split; [| intros [outcome H]; discriminate H].
              intros H. apply andb_true_iff in H as [_ H].
              apply andb_true_iff in H as [H _].
              apply Hn in H as [text' H]. discriminate H.
        -- split; [| intros [outcome H]; discriminate H].
           intros H. apply andb_true_iff in H as [H _].
           apply Ht in H as [text' H]. discriminate H.
      * simpl. split; [intros _; eexists; reflexivity | reflexivity].
    + simpl negb. simpl andb. simpl orb. cbv iota. rewrite andb_true_r.
      destruct (JS.truthy (Parser.pick_targetValue approx)) eqn:Htruthy.
      * specialize (Ht (truthy_not_nullish _ Htruthy)).
        simpl negb. simpl orb. unfold bind.
        destruct (JS.toString "targetValue" (Parser.pick_targetValue approx))
          as [targetText | m].
        -- split; [intros _; eexists; reflexivity |].
           intros _. apply Ht. eexists; reflexivity.
        -- split; [| intros [outcome H]; discriminate H].
           intros H. apply Ht in H as [text' H]. discriminate H.
      * simpl. split; [intros _; eexists; reflexivity | reflexivity].
Qed.

Lemma parse_step_well_formed (acc : list Parser.Item * list ErrorEntry.t)
      (approx : JSValue) (i : nat) :
  Request.well_formed approx = true ->
  exists acc',
    Parser.parse_step acc approx i = Ok acc'
    /\ (List.length (fst acc') + List.length (snd acc')
        = S (List.length (fst acc) + List.length (snd acc)))%nat.
Proof.
  intros H. apply (parseApproximation_well_formed approx i) in H as [outcome H].
  unfold Parser.parse_step, bind. rewrite H.
  destruct outcome; eexists; (split; [reflexivity |]);
    simpl; rewrite length_app; simpl; lia.
Qed.

Lemma parse_from_well_formed (items : list JSValue) :
  forall (i : nat) (acc : list Parser.Item * list ErrorEntry.t),
    Forall (fun approx => Request.well_formed approx = true) items ->
    exists acc',
      Parser.parse_from i items acc = Ok acc'
      /\ (List.length (fst acc') + List.length (snd acc')
          = List.length items + (List.length (fst acc) + List.length (snd acc)))%nat.
Proof.
  induction items as [| approx items IH]; intros i acc Hwf; simpl.
  - exists acc. split; [reflexivity | lia].
  - apply Forall_cons_iff in Hwf as [Happrox Hwf].
    destruct (parse_step_well_formed acc approx i Happrox) as (acc1 & Hstep & Hlen).
    rewrite Hstep. simpl.
    destruct (IH (S i) acc1 Hwf) as (acc' & Hrest & Hlen').
    exists acc'. split; [exact Hrest | lia].
Qed.

Lemma evaluate_all_count (L : Lib) (parsed : list Parser.Item)
      (acc : list Server.Entry * list ErrorEntry.t) :
  (List.length (fst (fold_left (Server.evaluate_step L) parsed acc))
   + List.length (snd (fold_left (Server.evaluate_step L) parsed acc))
   = List.length parsed + (List.length (fst acc) + List.length (snd acc)))%nat.
Proof.
  revert acc. induction parsed as [| item parsed IH]; intros acc; simpl.
  - reflexivity.
  - rewrite IH. unfold Server.evaluate_step.
    destruct (Server.evaluate_item L item); simpl; rewrite length_app; simpl; lia.
Qed.

(** A batch of well-formed items is answered with results and errors that
    together count its items: a missing field, an expression mathjs
    rejects or a target decimal.js rejects costs the batch one item and
    nothing else. *)
Lemma well_formed_batch_is_processed (L : Lib) (items : list JSValue) :
  Forall (fun approx => Request.well_formed approx = true) items ->
  exists results errors summary,
    Server.evaluate_batch L (Request.batch items)
    = Server.BatchOk results errors summary
    /\ (List.length results + List.length errors = List.length items)%nat.
Proof.
  intros Hwf.
  destruct (parse_from_well_formed items 0 ([], []) Hwf)
    as ([parsed parseErrors] & Hparse & Hlen).
  simpl in Hlen.
  unfold Server.evaluate_batch, Request.batch. simpl.
  rewrite Hparse.
  pose proof (evaluate_all_count L parsed ([], parseErrors)) as Hcount.
  unfold Server.evaluate_all.
  destruct (fold_left _ parsed _) as [unsorted errors].
  simpl in Hcount.
  do 3 eexists. split; [reflexivity |].
  rewrite (Permutation_length (sort_perm Server.by_score unsorted)). lia.
Qed.

(** ** What a batch response reports *)

(** The whole of what the handler does on the way to a 200 response. *)
Lemma evaluate_batch_inv (L : Lib) (body : JSValue)
      (results : list Server.Entry) (errors : list ErrorEntry.t)
      (summary : Server.Summary) :
  Server.evaluate_batch L body = Server.BatchOk results errors summary ->
  exists items parsed parseErrors,
    JS.prop body "approximations" = JArr items
    /\ Parser.parse_from 0 items ([], []) = Ok (parsed, parseErrors)
    /\ results
       = Server.sort Server.by_score (fst (Server.evaluate_all L parsed parseErrors))
    /\ errors = snd (Server.evaluate_all L parsed parseErrors)
    /\ summary
       = {| Server.total := List.length items;
            Server.successful := List.length results;
            Server.failed := List.length errors;
            Server.bestScore :=
              match results with
              | best :: _ => score (Server.quality best)
              | [] => Num.of_nat 0
              end |}.
Proof.
  unfold Server.evaluate_batch. intros H.
  assert (JS.nullish body = false) as Hbody by (now destruct body).
  remember (JS.prop body "approximations") as approximations eqn:Happ.
  assert ((if negb (JS.truthy approximations)
           then Server.Status400 "Invalid request: approximations array required"
           else if negb (JS.is_array approximations)
           then Server.Status400 "approximations must be an array"
           else
             match Parser.parseBatch approximations with
             | Throw message => Server.Status500 message
             | Ok (parsed, parseErrors) =>
                 let (unsorted, errors) := Server.evaluate_all L parsed parseErrors in
                 let results := Server.sort Server.by_score unsorted in
                 Server.BatchOk results errors
                   {| Server.total := Server.array_length approximations;
                      Server.successful := List.length results;
                      Server.failed := List.length errors;
                      Server.bestScore :=
                        match results with
                        | best :: _ => score (Server.quality best)
                        | [] => Num.of_nat 0
                        end |}
             end) = Server.BatchOk results errors summary) as H'.
  { destruct body; try discriminate Hbody; exact H. }
  clear H.
  destruct (negb (JS.truthy approximations)); [discriminate |].
  destruct approximations as [| | | | | items |]; try discriminate H'.
  simpl negb in H'. cbv iota in H'.
  destruct (Parser.parseBatch (JArr items)) as [[parsed parseErrors] |] eqn:Hparse;
    [| discriminate].
  exists items, parsed, parseErrors. split; [reflexivity |].
  split; [exact Hparse |].
  destruct (Server.evaluate_all L parsed parseErrors) as [unsorted errs].
  injection H' as <- <- <-. repeat split.
Qed.

Lemma mixed_batch_response :
  Server.evaluate_batch Reference.lib mixed_batch
  = Server.BatchOk mixed_results mixed_errors mixed_summary.
Proof.
  vm_compute. reflexivity.
Qed.

Lemma pick_expression_first (approx : JSValue) :
  JS.truthy (JS.prop approx "expression") = true ->
  Parser.pick_expression approx = JS.prop approx "expression".
Proof.
  unfold Parser.pick_expression, JS.or. intros H. now rewrite H, H.
Qed.

Lemma truthy_string (text : string) :
  JS.truthy (JStr text) = true -> text <> "".
Proof.
  simpl. intros H ->. discriminate H.
Qed.

(** What one round of the parsing loop appends, for an item at position
    [i] of [items]. *)
Lemma parse_step_spec (items : list JSValue) (approx : JSValue) (i : nat)
      (acc acc' : list Parser.Item * list ErrorEntry.t) :
  nth_error items i = Some approx ->
  Parser.parse_step acc approx i = Ok acc' ->
  (exists p, acc' = ((fst acc ++ [p])%list, snd acc)
             /\ Parser.index p = i /\ parsed_echo items p)
  \/ (exists e, acc' = (fst acc, (snd acc ++ [e])%list)
                /\ ErrorEntry.index e = Z.of_nat i
                /\ item_error (List.length items) e).
Proof.
  intros Hnth Hstep.
  assert (i < List.length items)%nat as Hi.
  { apply nth_error_Some. congruence. }
  unfold Parser.parse_step, bind in Hstep.
  destruct (Parser.parseApproximation approx i) as [outcome |] eqn:Hparse;
    [| discriminate].
  pose proof (parseApproximation_ok_not_nullish _ _ _ Hparse) as Hitem.
  rewrite (parseApproximation_not_nullish approx i Hitem) in Hparse.
  cbv zeta in Hparse. unfold bind in Hparse.
  destruct (JS.truthy (Parser.pick_expression approx)) eqn:Hexpr.
  - destruct (Parser.is_string (Parser.pick_expression approx)) eqn:Hstr;
      [| discriminate].
    destruct (Parser.pick_expression approx) as [| | | | text | |] eqn:Hpick;
      try discriminate Hstr.
    simpl andb in Hparse. cbv iota in Hparse.
    destruct (JS.truthy (Parser.pick_targetValue approx)) eqn:Htarget.
    + destruct (JS.toString "targetValue" (Parser.pick_targetValue approx))
        as [targetText |] eqn:Htext; [| discriminate].
      simpl in Hparse.
      destruct (JS.toString "targetName" (Parser.pick_targetName approx))
        as [nameText |] eqn:Hname; [| discriminate].
      destruct (JS.toString "description" (Parser.pick_description approx))
        as [descriptionText |] eqn:Hdesc; [| discriminate].
      injection Hparse as <-; injection Hstep as <-.
      left. eexists. split; [reflexivity |]. split; [reflexivity |].
      exists approx. simpl. rewrite Hpick.
      repeat split; auto. now apply truthy_string.
    + simpl in Hparse. injection Hparse as <-; injection Hstep as <-.
      right. eexists. split; [reflexivity |]. split; [reflexivity |].
      split; [simpl; lia |]. split; [| right; left; reflexivity].
      simpl. unfold JS.or.
      destruct (JS.truthy (JS.prop approx "expression")) eqn:Hfirst.
      * rewrite <- (pick_expression_first approx Hfirst), Hpick.
        exists text. split; [reflexivity | now apply truthy_string].
      * exists "missing". split; [reflexivity | discriminate].
  - simpl andb in Hparse. cbv iota in Hparse.
    destruct (if JS.truthy (Parser.pick_targetValue approx)
              then JS.toString "targetValue" (Parser.pick_targetValue approx)
              else Ok "") as [logged |]; [| discriminate].
    simpl in Hparse. injection Hparse as <-. injection Hstep as <-.
    right. eexists. split; [reflexivity |]. split; [reflexivity |].
    split; [simpl; lia |]. split; [| left; reflexivity].
    simpl. unfold JS.or.
    destruct (JS.truthy (JS.prop approx "expression")) eqn:Hfirst.
    + rewrite (pick_expression_first approx Hfirst) in Hexpr. congruence.
    + exists "missing". split; [reflexivity | discriminate].
Qed.

(** What the parsing loop keeps: parsed items echo the array, errors are
    well formed, and the indices handed out are those of the items gone
    through. *)
Lemma parse_from_spec (items : list JSValue) :
  forall (rest before : list JSValue)
         (acc acc' : list Parser.Item * list ErrorEntry.t),
    items = (before ++ rest)%list ->
    Parser.parse_from (List.length before) rest acc = Ok acc' ->
    Forall (parsed_echo items) (fst acc) ->
    Forall (item_error (List.length items)) (snd acc) ->
    Forall (parsed_echo items) (fst acc')
    /\ Forall (item_error (List.length items)) (snd acc')
    /\ Permutation (accounted (fst acc') (snd acc'))
                   (accounted (fst acc) (snd acc)
                    ++ map Z.of_nat (seq (List.length before) (List.length rest))).
Proof.
  induction rest as [| approx rest IH]; intros before acc acc' Hitems H Hp He;
    simpl in H.
  - injection H as <-. simpl. rewrite app_nil_r. auto.
  - unfold bind in H.
    destruct (Parser.parse_step acc approx (List.length before)) as [acc1 |] eqn:Hstep;
      [| discriminate].
    assert (nth_error items (List.length before) = Some approx) as Hnth.
    { subst items. now rewrite nth_error_app2, Nat.sub_diag by lia. }
    assert (items = ((before ++ [approx]) ++ rest)%list) as Hitems'.
    { now rewrite <- app_assoc. }
    replace (S (List.length before)) with (List.length (before ++ [approx])) in H
      by (rewrite length_app; simpl; lia).
    destruct (parse_step_spec items approx _ acc acc1 Hnth Hstep)
      as [(p & -> & Hidx & Hecho) | (e & -> & Hidx & Herr)].
    + destruct (IH _ _ _ Hitems' H) as (Hp' & He' & Hperm); simpl.
      * apply Forall_app. split; [exact Hp | now constructor].
      * exact He.
      * split; [exact Hp' |]. split; [exact He' |].
        rewrite Hperm. rewrite length_app. simpl.
        replace (List.length before + 1)%nat with (S (List.length before)) by lia.
        unfold accounted. simpl. rewrite map_app. simpl. rewrite Hidx.
        rewrite <- !app_assoc. apply Permutation_app_head.
        simpl. rewrite <- Permutation_middle. reflexivity.
    + destruct (IH _ _ _ Hitems' H) as (Hp' & He' & Hperm); simpl.
      * exact Hp.
      * apply Forall_app. split; [exact He | now constructor].
      * split; [exact Hp' |]. split; [exact He' |].
        rewrite Hperm. rewrite length_app. simpl.
        replace (List.length before + 1)%nat with (S (List.length before)) by lia.
        unfold accounted. simpl. rewrite map_app. simpl. rewrite Hidx.
        rewrite <- !app_assoc. do 2 apply Permutation_app_head.
        reflexivity.
Qed.

Lemma evaluate_item_fields (L : Lib) (p : Parser.Item) (entry : Server.Entry) :
  Server.evaluate_item L p = Ok entry ->
  Server.index entry = Parser.index p
  /\ Server.expression entry = Parser.expression p
  /\ Server.target entry = Parser.targetValue p
  /\ Server.targetName entry = Parser.targetName p
  /\ Server.description entry = Parser.description p.
Proof.
  unfold Server.evaluate_item, bind.
  destruct (MathEvaluator.evaluateExpression _ _ _); [| discriminate].
  destruct (MathEvaluator.calculateApproximationQuality _ _ _ _); [| discriminate].
  intros [= <-]. repeat split.
Qed.

Lemma evaluate_item_message (L : Lib) (p : Parser.Item) (message : string) :
  Server.evaluate_item L p = Throw message -> error_kind message.
Proof.
  unfold Server.evaluate_item, bind, MathEvaluator.evaluateExpression,
    MathEvaluator.calculateApproximationQuality, bind.
  destruct (evaluate L _) as [text | m].
  - destruct (Decimal_parse L text) as [computed | m].
    + destruct (Decimal_parse L (Parser.targetValue p)) as [t | m].
      * discriminate.
      * intros [= <-]. right. right. right. now exists m.
    + intros [= <-]. right. right. left. now exists m.
  - intros [= <-]. right. right. left. now exists m.
Qed.

Lemma echoes_of_parsed (L : Lib) (items : list JSValue) (p : Parser.Item)
      (entry : Server.Entry) :
  parsed_echo items p -> Server.evaluate_item L p = Ok entry -> echoes items entry.
Proof.
  intros (approx & Hnth & He & Hne & Ht & Htv & Htn & Hd) Hentry.
  destruct (evaluate_item_fields L p entry Hentry) as (Hi & Hx & Hy & Hz & Hw).
  exists approx. rewrite Hi, Hx, Hy, Hz, Hw. repeat split; assumption.
Qed.

(** What one round of the evaluation loop appends. *)
Lemma evaluate_step_spec (L : Lib) (items : list JSValue) (p : Parser.Item)
      (acc : list Server.Entry * list ErrorEntry.t) :
  parsed_echo items p ->
  (exists entry, Server.evaluate_step L acc p = ((fst acc ++ [entry])%list, snd acc)
                 /\ Server.index entry = Parser.index p /\ echoes items entry)
  \/ (exists e, Server.evaluate_step L acc p = (fst acc, (snd acc ++ [e])%list)
                /\ ErrorEntry.index e = Z.of_nat (Parser.index p)
                /\ item_error (List.length items) e).
Proof.
  intros Hp. unfold Server.evaluate_step.
  destruct (Server.evaluate_item L p) as [entry | message] eqn:Hitem.
  - left. exists entry. split; [reflexivity |].
    split; [apply (evaluate_item_fields L p entry Hitem) |].
    now apply (echoes_of_parsed L items p).
  - right. eexists. split; [reflexivity |]. split; [reflexivity |].
    destruct Hp as (approx & Hnth & _ & Hne & _).
    assert (Parser.index p < List.length items)%nat as Hlt.
    { apply nth_error_Some. congruence. }
    split; [simpl; lia |]. split; [| now apply (evaluate_item_message L p)].
    exists (Parser.expression p). split; [| exact Hne].
    simpl. unfold JS.or. simpl.
    destruct (Parser.expression p); [contradiction | reflexivity].
Qed.

(** What the evaluation loop keeps. *)
Lemma evaluate_loop_spec (L : Lib) (items : list JSValue)
      (parsed : list Parser.Item) :
  forall acc : list Server.Entry * list ErrorEntry.t,
    Forall (parsed_echo items) parsed ->
    Forall (echoes items) (fst acc) ->
    Forall (item_error (List.length items)) (snd acc) ->
    let res := fold_left (Server.evaluate_step L) parsed acc in
    Forall (echoes items) (fst res)
    /\ Forall (item_error (List.length items)) (snd res)
    /\ Permutation (reported (fst res) (snd res))
                   (reported (fst acc) (snd acc)
                    ++ map (fun p => Z.of_nat (Parser.index p)) parsed).
Proof.
  induction parsed as [| p parsed IH]; intros acc Hparsed Hr He; cbv zeta.
  - simpl. rewrite app_nil_r. auto.
  - apply Forall_cons_iff in Hparsed as [Hp Hparsed].
    change (fold_left (Server.evaluate_step L) (p :: parsed) acc)
      with (fold_left (Server.evaluate_step L) parsed (Server.evaluate_step L acc p)).
    destruct (evaluate_step_spec L items p acc Hp)
      as [(entry & -> & Hidx & Hecho) | (e & -> & Hidx & Herr)].
    + destruct (IH (fst acc ++ [entry], snd acc)%list Hparsed) as (H1 & H2 & H3);
        simpl.
      * apply Forall_app. split; [exact Hr | now constructor].
      * exact He.
      * split; [exact H1 |]. split; [exact H2 |].
        rewrite H3. unfold reported. simpl. rewrite map_app. simpl. rewrite Hidx.
        rewrite <- !app_assoc. apply Permutation_app_head.
        simpl. rewrite <- Permutation_middle. reflexivity.
    + destruct (IH (fst acc, snd acc ++ [e])%list Hparsed) as (H1 & H2 & H3); simpl.
      * exact Hr.
      * apply Forall_app. split; [exact He | now constructor].
      * split; [exact H1 |]. split; [exact H2 |].
        rewrite H3. unfold reported. simpl. rewrite map_app. simpl. rewrite Hidx.
        rewrite <- !app_assoc. do 2 apply Permutation_app_head.
        reflexivity.
Qed.

(** Everything the handler promises about a 200 response, in one place. *)
Lemma batch_response_spec (L : Lib) (body : JSValue)
      (results : list Server.Entry) (errors : list ErrorEntry.t)
      (summary : Server.Summary) :
  Server.evaluate_batch L body = Server.BatchOk results errors summary ->
  exists items,
    JS.prop body "approximations" = JArr items
    /\ Server.total summary = List.length items
    /\ Server.successful summary = List.length results
    /\ Server.failed summary = List.length errors
    /\ Forall (echoes items) results
    /\ Forall (item_error (List.length items)) errors
    /\ Permutation (reported results errors) (submitted (List.length items)).
Proof.
  intros H.
  apply evaluate_batch_inv in H
    as (items & parsed & parseErrors & Happ & Hparse & -> & -> & ->).
  exists items. split; [exact Happ |]. do 3 (split; [reflexivity |]).
  destruct (parse_from_spec items items [] ([], []) (parsed, parseErrors)
              eq_refl Hparse (Forall_nil _) (Forall_nil _))
    as (Hp & He & Hperm).
  simpl in Hp, He, Hperm.
  destruct (evaluate_loop_spec L items parsed ([], parseErrors) Hp (Forall_nil _) He)
    as (H1 & H2 & H3).
  unfold Server.evaluate_all.
  split; [| split; [exact H2 |]].
  - eapply Permutation_Forall; [symmetry; apply sort_perm | exact H1].
  - unfold reported in *.
    rewrite (Permutation_map _ (sort_perm Server.by_score _)).
    rewrite H3. simpl. unfold submitted. rewrite <- Hperm. unfold accounted.
    apply Permutation_app_comm.
Qed.

Lemma submitted_NoDup (n : nat) : NoDup (submitted n).
Proof.
  unfold submitted.
  apply Finite.Injective_map_NoDup; [| apply seq_NoDup].
  intros a b. apply Nat2Z.inj.
Qed.

(** X1: in a 200 response of the batch handler every item of the submitted
    array is reported exactly once, as a result or as an error: the indices
    of the results and of the errors are those of the array, none twice;
    the summary's [total] is the length of the array and its [successful]
    and [failed] add up to it. *)
Theorem every_item_is_reported_once
        (L : Lib) (body : JSValue)
        (results : list Server.Entry) (errors : list ErrorEntry.t)
        (summary : Server.Summary)
        (Hbatch : Server.evaluate_batch L body = Server.BatchOk results errors summary) :
  Permutation (reported results errors) (submitted (Server.total summary))
  /\ NoDup (reported results errors)
  /\ (Server.successful summary + Server.failed summary = Server.total summary)%nat
  /\ exists items,
      JS.prop body "approximations" = JArr items
      /\ Server.total summary = List.length items.
Proof.
  destruct (batch_response_spec L body results errors summary Hbatch)
    as (items & Happ & Ht & Hs & Hf & _ & _ & Hperm).
  rewrite Ht, Hs, Hf.
  split; [exact Hperm |]. split; [| split].
  - eapply Permutation_NoDup; [symmetry; exact Hperm | apply submitted_NoDup].
  - apply Permutation_length in Hperm.
    unfold reported, submitted in Hperm.
    rewrite length_app, !length_map, length_seq in Hperm. exact Hperm.
  - now exists items.
Qed.

Lemma every_item_is_reported_once_witness :
  Permutation (reported mixed_results mixed_errors) (submitted 3)
  /\ reported mixed_results mixed_errors = [0; 2; 1]%Z.
Proof.
  split.
  - exact (proj1 (every_item_is_reported_once
                    Reference.lib mixed_batch mixed_results mixed_errors
                    mixed_summary mixed_batch_response)).
  - reflexivity.
Defined.

(** X2: every result of a 200 response echoes the item at its index of the
    submitted array: its expression is the non-empty string the parser
    picked across [expression], [expr] and [formula], its target what
    [toString()] returns on the truthy value picked across [value],
    [target], [computed] and [result] (a number as JavaScript prints it),
    its name and description what [toString()] returns on the values
    picked or on their defaults; evaluation and ranking touch none of
    them. *)
Theorem results_echo_the_submitted_items
        (L : Lib) (body : JSValue)
        (results : list Server.Entry) (errors : list ErrorEntry.t)
        (summary : Server.Summary)
        (Hbatch : Server.evaluate_batch L body = Server.BatchOk results errors summary) :
  exists items,
    JS.prop body "approximations" = JArr items
    /\ Forall (echoes items) results.
Proof.
  destruct (batch_response_spec L body results errors summary Hbatch)
    as (items & Happ & _ & _ & _ & Hecho & _).
  now exists items.
Qed.

Lemma results_echo_the_submitted_items_witness :
  exists items,
    JS.prop mixed_batch "approximations" = JArr items
    /\ Forall (echoes items) mixed_results.
Proof.
  exact (results_echo_the_submitted_items
           Reference.lib mixed_batch mixed_results mixed_errors mixed_summary
           mixed_batch_response).
Defined.

(** X3: every error entry of a 200 response carries the index of an item
    of the submitted array, a non-empty string as its expression (the
    item's own, or the placeholder [missing]) and a message of one of four
    shapes: the two missing-field messages of the parser, or what mathjs
    or decimal.js threw behind the prefix [Expression evaluation failed: ]
    or [Quality calculation failed: ]. *)
Theorem errors_are_item_errors
        (L : Lib) (body : JSValue)
        (results : list Server.Entry) (errors : list ErrorEntry.t)
        (summary : Server.Summary)
        (Hbatch : Server.evaluate_batch L body = Server.BatchOk results errors summary) :
  Forall (item_error (Server.total summary)) errors.
Proof.
  destruct (batch_response_spec L body results errors summary Hbatch)
    as (items & _ & Ht & _ & _ & _ & Herr & _).
  now rewrite Ht.
Qed.

Lemma errors_are_item_errors_witness :
  Forall (item_error 3) mixed_errors
  /\ map ErrorEntry.error mixed_errors
     = ["Missing target value field (tried: value, target, computed, result)";
        "Expression evaluation failed: Undefined symbol x"].
Proof.
  split.
  - exact (errors_are_item_errors
             Reference.lib mixed_batch mixed_results mixed_errors mixed_summary
             mixed_batch_response).
  - reflexivity.
Defined.

Lemma sub_sign_refl (x : JSNumber) : Num.sub_sign x x <> Lt.
Proof.
  destruct x as [q | [] |]; simpl; try discriminate.
  rewrite (proj1 (Qeq_alt q q) (Qeq_refl q)). discriminate.
Qed.

Lemma batch_results_ranked (L : Lib) (body : JSValue)
      (results : list Server.Entry) (errors : list ErrorEntry.t)
      (summary : Server.Summary) :
  Server.evaluate_batch L body = Server.BatchOk results errors summary ->
  Forall scored results ->
  StronglySorted ranks_before results.
Proof.
  intros H Hscored.
  apply evaluate_batch_inv in H
    as (items & parsed & parseErrors & _ & Hparse & -> & _ & _).
  unfold Server.evaluate_all in *.
  rewrite evaluate_all_results in *. simpl in *.
  apply sort_ranked.
  - apply successes_increasing.
    apply parse_from_indices in Hparse as (l & Hl & Hsorted & _).
    simpl in Hl. now subst l.
  - eapply Permutation_Forall; [apply sort_perm | exact Hscored].
Qed.

(** X4: the summary's [bestScore] is the score of the first result, no
    result has a higher one when the scores are numbers, and it is 0 when
    there is no result. *)
Theorem best_score_is_the_highest
        (L : Lib) (body : JSValue)
        (results : list Server.Entry) (errors : list ErrorEntry.t)
        (summary : Server.Summary)
        (Hbatch : Server.evaluate_batch L body = Server.BatchOk results errors summary)
        (Hscored : Forall scored results) :
  Forall (fun r => Num.sub_sign (Server.bestScore summary) (score (Server.quality r))
                   <> Lt) results
  /\ (results = [] -> Server.bestScore summary = Num.of_nat 0)
  /\ (forall best rest, results = best :: rest ->
                        Server.bestScore summary = score (Server.quality best)).
Proof.
  pose proof (batch_results_ranked L body results errors summary Hbatch Hscored)
    as Hsorted.
  apply evaluate_batch_inv in Hbatch
    as (items & parsed & parseErrors & _ & _ & Hres & _ & ->).
  clear Hres. simpl.
  split; [| split].
  - destruct results as [| best rest]; [constructor |].
    apply StronglySorted_inv in Hsorted as [_ Hbest].
    constructor; [apply sub_sign_refl |].
    eapply Forall_impl; [| exact Hbest].
    intros r. apply ranks_before_ge.
  - now intros ->.
  - now intros best rest ->.
Qed.

Lemma best_score_is_the_highest_witness :
  Forall (fun r => Num.sub_sign (Server.bestScore tie_summary)
                                (score (Server.quality r)) <> Lt) tie_results.
Proof.
  exact (proj1 (best_score_is_the_highest
                  Reference.lib tie_batch tie_results [] tie_summary
                  tie_batch_response tie_results_scored)).
Defined.

(** ** Scores *)

Lemma inverse_not_zero (q : Q) : ~ q == 0 -> ~ 1 / q == 0.
Proof.
  intros Hq H. apply Hq.
  assert (q == q * (1 / q) * q) as Hfield by (field; exact Hq).
  rewrite Hfield, H. ring.
Qed.

Lemma is_zero_false (q : Q) : Dec.is_zero q = false <-> ~ q == 0.
Proof.
  unfold Dec.is_zero. rewrite <- Qeq_bool_iff.
  destruct (Qeq_bool q 0); split; intros H; congruence.
Qed.

Lemma penalty_is_positive (L : Lib) (c : nat) :
  round_exact_at_zero L ->
  exists p,
    Dec.dividedBy L (Dec.of_nat 1) (Dec.plus L (Dec.of_nat c) (Dec.of_nat 1)) = DFin p
    /\ Dec.is_zero p = false.
Proof.
  intros Hround.
  unfold Dec.plus, Dec.of_nat, Dec.dividedBy.
  set (r := round L (inject_Z (Z.of_nat c) + inject_Z (Z.of_nat 1))).
  assert (~ r == 0) as Hr.
  { unfold r. rewrite (Hround _). rewrite <- inject_Z_plus.
    intros H. unfold Qeq in H. simpl in H. lia. }
  rewrite (proj2 (is_zero_false r) Hr).
  eexists. split; [reflexivity |].
  apply is_zero_false. rewrite (Hround _). now apply inverse_not_zero.
Qed.

(** X5: the overall score of an item is NaN exactly when its absolute
    error is: with a rounding that keeps zero apart, errors that are
    numbers (infinite ones included) always get a score that is a number,
    so such items can be ranked. *)
Theorem score_is_a_number_when_the_error_is
        (L : Lib) (d : Decimal) (complexity : nat)
        (Hround : round_exact_at_zero L) :
  Num.is_nan (MathEvaluator.calculateOverallScore L (Dec.abs d) complexity)
  = Dec.is_nan d.
Proof.
  unfold MathEvaluator.calculateOverallScore.
  destruct (penalty_is_positive L complexity Hround) as (p & -> & Hp).
  destruct d as [q | s |]; cbn [Dec.abs Dec.plus MathEvaluator.epsilon].
  - unfold Dec.dividedBy at 1. cbn [Dec.of_nat].
    destruct (Dec.is_zero (round L _)).
    + change (Dec.is_zero (inject_Z (Z.of_nat 1))) with false. cbv iota.
      cbn [Dec.times]. now rewrite Hp.
    + reflexivity.
  - reflexivity.
  - reflexivity.
Qed.

Lemma reference_round_exact_at_zero : round_exact_at_zero Reference.lib.
Proof.
  intros q. simpl. now rewrite Qred_correct.
Qed.

Lemma score_is_a_number_when_the_error_is_witness :
  Num.is_nan (MathEvaluator.calculateOverallScore
                Reference.lib (Dec.abs (DInf true)) 7) = false.
Proof.
  exact (score_is_a_number_when_the_error_is
           Reference.lib (DInf true) 7 reference_round_exact_at_zero).
Defined.

(** X6: with a rounding that keeps zero apart, the absolute error of a
    finite computed value against a finite target is zero exactly when the
    two are equal, and an exact match is scored with the full 50 accuracy
    digits. *)
Theorem exact_match_has_zero_error_and_full_accuracy
        (L : Lib) (a b : Q) (target expression : string)
        (Hround : round_exact_at_zero L)
        (Htarget : Decimal_parse L target = Ok (DFin b)) :
  (Dec.equals_zero (Dec.abs (Dec.minus L (DFin a) (DFin b))) = true <-> a == b)
  /\ (a == b ->
      exists quality,
        MathEvaluator.calculateApproximationQuality L (DFin a) target expression
        = Ok quality
        /\ accuracy quality = Num.of_nat 50).
Proof.
  assert (Dec.equals_zero (Dec.abs (Dec.minus L (DFin a) (DFin b))) = true <-> a == b)
    as Hiff.
  { cbn [Dec.minus Dec.abs Dec.equals_zero].
    rewrite is_zero_Qabs, is_zero_true, (Hround _).
    split; intros H.
    - rewrite <- (Qplus_0_l b), <- H. ring.
    - rewrite H. ring. }
  split; [exact Hiff |].
  intros Heq.
  unfold MathEvaluator.calculateApproximationQuality. rewrite Htarget.
  eexists. split; [reflexivity |].
  cbn [accuracy]. unfold MathEvaluator.calculateAccuracy.
  now rewrite (proj2 Hiff Heq).
Qed.

Lemma exact_match_has_zero_error_and_full_accuracy_witness :
  exists quality,
    MathEvaluator.calculateApproximationQuality Reference.lib (DFin (5 # 2)) "2.50" "5/2"
    = Ok quality
    /\ accuracy quality = Num.of_nat 50.
Proof.
  apply (proj2 (exact_match_has_zero_error_and_full_accuracy
                  Reference.lib (5 # 2) (5 # 2) "2.50" "5/2"
                  reference_round_exact_at_zero eq_refl)).
  reflexivity.
Defined.

(** ** When a batch is answered *)

Lemma parse_step_ok_well_formed (acc acc' : list Parser.Item * list ErrorEntry.t)
      (approx : JSValue) (i : nat) :
  Parser.parse_step acc approx i = Ok acc' -> Request.well_formed approx = true.
Proof.
  unfold Parser.parse_step, bind.
  destruct (Parser.parseApproximation approx i) as [outcome |] eqn:Hparse;
    [| discriminate].
  intros _. apply (parseApproximation_well_formed approx i). now exists outcome.
Qed.

Lemma parse_from_ok_well_formed (items : list JSValue) :
  forall (i : nat) (acc acc' : list Parser.Item * list ErrorEntry.t),
    Parser.parse_from i items acc = Ok acc' ->
    Forall (fun approx => Request.well_formed approx = true) items.
Proof.
  induction items as [| approx items IH]; intros i acc acc' H; simpl in H.
  - constructor.
  - unfold bind in H.
    destruct (Parser.parse_step acc approx i) as [acc1 |] eqn:Hstep; [| discriminate].
    constructor.
    + now apply (parse_step_ok_well_formed acc acc1 approx i).
    + now apply (IH (S i) acc1 acc').
Qed.

(** X7: a batch is answered with results and errors (status 200) exactly
    when each of its items is one the parser goes through without
    throwing: not [null], with an expression that is falsy or a string, a
    target that is falsy or converts to a string, and, where both are
    there, a name and a description that convert to a string (no object
    with a [toString] property of its own, in the value or in an array of
    it).  One item outside of that turns the whole answer into a status
    500. *)
Theorem batch_is_answered_iff_items_are_well_formed
        (L : Lib) (items : list JSValue) :
  (exists results errors summary,
      Server.evaluate_batch L (Request.batch items)
      = Server.BatchOk results errors summary)
  <-> Forall (fun approx => Request.well_formed approx = true) items.
Proof.
  split.
  - intros (results & errors & summary & H).
    apply evaluate_batch_inv in H
      as (items' & parsed & parseErrors & Happ & Hparse & _).
    simpl in Happ. injection Happ as <-.
    now apply (parse_from_ok_well_formed items 0 ([], []) (parsed, parseErrors)).
  - intros Hwf.
    destruct (well_formed_batch_is_processed L items Hwf)
      as (results & errors & summary & H & _).
    now exists results, errors, summary.
Qed.

(** X8: ranking is stable under repetition: sorting the results of a 200
    response again with the handler's comparator leaves them as they
    are. *)
Theorem ranking_again_changes_nothing
        (L : Lib) (body : JSValue)
        (results : list Server.Entry) (errors : list ErrorEntry.t)
        (summary : Server.Summary)
        (Hbatch : Server.evaluate_batch L body = Server.BatchOk results errors summary)
        (Hscored : Forall scored results) :
  Server.sort Server.by_score results = results.
Proof.
  pose proof (batch_results_ranked L body results errors summary Hbatch Hscored)
    as Hsorted.
  clear Hbatch Hscored.
  induction results as [| x l IH]; simpl; [reflexivity |].
  apply StronglySorted_inv in Hsorted as [Hsorted Hx].
  rewrite (IH Hsorted).
  destruct l as [| y l]; simpl; [reflexivity |].
  apply Forall_inv in Hx.
  unfold Server.by_score. rewrite (sub_sign_antisym (score (Server.quality x))).
  unfold ranks_before in Hx. cbv zeta in Hx.
  destruct Hx as [-> | [-> _]]; reflexivity.
Qed.

Lemma ranking_again_changes_nothing_witness :
  Server.sort Server.by_score tie_results = tie_results.
Proof.
  exact (ranking_again_changes_nothing
           Reference.lib tie_batch tie_results [] tie_summary
           tie_batch_response tie_results_scored).
Defined.

(** ** The two evaluation endpoints agree *)

Lemma truthy_text (text : string) : text <> "" -> JS.truthy (JStr text) = true.
Proof.
  intros H. simpl. now apply negb_true_iff, String.eqb_neq.
Qed.

Lemma parse_one_item (text targetText : string) (target : JSValue) :
  text <> "" -> JS.truthy target = true ->
  JS.toString "target" target = Ok targetText ->
  Parser.parseBatch (JArr [Request.item (JStr text) target])
  = Ok ([{| Parser.index := 0;
            Parser.expression := text;
            Parser.targetValue := targetText;
            Parser.targetName := "unknown";
            Parser.description := "" |}], []).
Proof.
  intros Htext Htarget Hprint.
  pose proof (truthy_text text Htext) as Ht.
  apply (toString_callee "target" "targetValue") in Hprint.
  assert (Parser.pick_expression (Request.item (JStr text) target) = JStr text) as He.
  { unfold Parser.pick_expression, Request.item, JS.or. simpl JS.prop.
    now rewrite Ht, Ht. }
  assert (Parser.pick_targetValue (Request.item (JStr text) target) = target) as Hv.
  { unfold Parser.pick_targetValue, Request.item, JS.or. simpl JS.prop.
    simpl (JS.truthy JUndefined). cbv iota. now rewrite Htarget, Htarget. }
  unfold Parser.parseBatch, Parser.parse_from, Parser.parse_step, bind.
  rewrite (parseApproximation_not_nullish (Request.item (JStr text) target) 0 eq_refl).
  cbv zeta. rewrite He, Hv, Ht, Htarget. unfold bind. rewrite Hprint. reflexivity.
Qed.

Lemma evaluate_single_item (L : Lib) (text targetText : string) (target : JSValue) :
  text <> "" -> JS.truthy target = true ->
  JS.toString "target" target = Ok targetText ->
  Server.evaluate_single L (Request.item (JStr text) target)
  = match (computed <- MathEvaluator.evaluateExpression L text [] ;;
           quality <- MathEvaluator.calculateApproximationQuality
                        L computed targetText text ;;
           Ok (computed, quality)) with
    | Throw message => Server.Status500 message
    | Ok (computed, quality) =>
        Server.SingleOk {| Server.single_expression := text;
                           Server.single_target := targetText;
                           Server.single_targetName := JStr "unknown";
                           Server.single_computed := Dec.toString L computed;
                           Server.single_quality := quality |}
    end.
Proof.
  intros Htext Htarget Hprint.
  pose proof (truthy_text text Htext) as Ht.
  unfold Server.evaluate_single, Server.quality_of_value, Request.item. simpl JS.prop.
  rewrite Ht, Htarget, Hprint. unfold bind. simpl negb. simpl orb. cbv iota.
  destruct (MathEvaluator.evaluateExpression L text []) as [computed | m];
    [| reflexivity].
  now destruct (MathEvaluator.calculateApproximationQuality L computed targetText text).
Qed.

(** X9: for a request [{ expression, target }] whose expression is a
    non-empty string and whose target is truthy and converts to a string,
    [/api/evaluate] and [/api/evaluate-batch] on the one-item batch agree:
    where the first answers with a result, the second ranks one result with
    the same computed value and quality and no error; where the first
    answers 500 with a message, the second records that message as the
    error of item 0 and ranks nothing. *)
Theorem single_and_batch_agree
        (L : Lib) (text targetText : string) (target : JSValue)
        (Htext : text <> "") (Htarget : JS.truthy target = true)
        (Hprint : JS.toString "target" target = Ok targetText) :
  let request := Request.item (JStr text) target in
  match Server.evaluate_single L request with
  | Server.SingleOk r =>
      exists entry summary,
        Server.evaluate_batch L (Request.batch [request])
        = Server.BatchOk [entry] [] summary
        /\ Server.quality entry = Server.single_quality r
        /\ Server.computed entry = Server.single_computed r
        /\ Server.expression entry = Server.single_expression r
        /\ Server.target entry = Server.single_target r
  | Server.Status500 message =>
      exists summary,
        Server.evaluate_batch L (Request.batch [request])
        = Server.BatchOk [] [{| ErrorEntry.index := 0;
                                ErrorEntry.expression := JStr text;
                                ErrorEntry.error := message |}] summary
  | _ => False
  end.
Proof.
  cbv zeta.
  rewrite (evaluate_single_item L text targetText target Htext Htarget Hprint).
  unfold Server.evaluate_batch, Request.batch. simpl JS.prop.
  cbn [JS.truthy JS.is_array negb].
  rewrite (parse_one_item text targetText target Htext Htarget Hprint).
  unfold Server.evaluate_all. cbn [fold_left].
  unfold Server.evaluate_step, Server.evaluate_item.
  cbn [Parser.expression Parser.targetValue Parser.index Parser.targetName
       Parser.description].
  unfold bind.
  destruct (MathEvaluator.evaluateExpression L text []) as [computed | m].
  - destruct (MathEvaluator.calculateApproximationQuality L computed
                targetText text) as [quality | m].
    + do 2 eexists. repeat split.
    + eexists. unfold JS.or. rewrite (truthy_text text Htext). reflexivity.
  - eexists. unfold JS.or. rewrite (truthy_text text Htext). reflexivity.
Qed.

Lemma single_and_batch_agree_witness :
  exists entry summary,
    Server.evaluate_batch Reference.lib
      (Request.batch [Request.item (JStr "3") (JStr "3.1")])
    = Server.BatchOk [entry] [] summary
    /\ accuracy (Server.quality entry) = NFin 1.
Proof.
  destruct (single_and_batch_agree Reference.lib "3" "3.1" (JStr "3.1")
              ltac:(discriminate) eq_refl eq_refl)
    as (entry & summary & Hbatch & Hquality & _).
  exists entry, summary. split; [exact Hbatch |].
  rewrite Hquality. reflexivity.
Defined.

(** ** The client's validation and the server's parser *)







(** ** AI commentary *)

Lemma lookup_assign_same (k : string) (v : JSValue)
      (fields : list (string * JSValue)) :
  JS.lookup k (AI.assign k v fields) = v.
Proof.
  induction fields as [| [k' v'] fields IH]; simpl.
  - now rewrite String.eqb_refl.
  - destruct (String.eqb k k') eqn:E; simpl.
    + now rewrite String.eqb_refl.
    + now rewrite E.
Qed.

Lemma lookup_assign_other (k k' : string) (v : JSValue)
      (fields : list (string * JSValue)) :
  k <> k' -> JS.lookup k (AI.assign k' v fields) = JS.lookup k fields.
Proof.
  intros Hk. apply String.eqb_neq in Hk.
  induction fields as [| [k1 v1] fields IH]; simpl.
  - now rewrite Hk.
  - destruct (String.eqb k' k1) eqn:E; simpl.
    + apply String.eqb_eq in E. subst k1. now rewrite Hk.
    + now rewrite IH.
Qed.

Lemma annotate_spec (evaluateApproximation : JSValue -> JSValue -> Result JSValue)
      (selectedModel result : JSValue) (i : nat) :
  let o := AI.annotate evaluateApproximation selectedModel i result in
  JS.prop o "evaluationIndex" = JNum (inject_Z (Z.of_nat i))
  /\ JS.prop o "aiEvaluation"
     = match evaluateApproximation result selectedModel with
       | Ok aiEvaluation => aiEvaluation
       | Throw message => AI.failed_evaluation message
       end
  /\ (forall k, ~ In k AI.annotation_keys ->
                JS.prop o k = JS.lookup k (AI.spread result)).
Proof.
  cbv zeta. unfold AI.annotate.
  destruct (evaluateApproximation result selectedModel) as [a | m]; simpl JS.prop.
  - split; [apply lookup_assign_same |]. split.
    + rewrite lookup_assign_other by discriminate. apply lookup_assign_same.
    + intros k Hk. simpl in Hk.
      rewrite !lookup_assign_other; [reflexivity | |]; intros ->; apply Hk; auto.
  - split; [rewrite lookup_assign_other by discriminate; apply lookup_assign_same |].
    split.
    + rewrite !lookup_assign_other by discriminate. apply lookup_assign_same.
    + intros k Hk. simpl in Hk.
      rewrite !lookup_assign_other; [reflexivity | | |]; intros ->; apply Hk; auto.
Qed.

Lemma annotate_from_spec (evaluateApproximation : JSValue -> JSValue -> Result JSValue)
      (selectedModel : JSValue) (items : list JSValue) :
  forall (start i : nat) (result : JSValue),
    nth_error items i = Some result ->
    nth_error (AI.annotate_from evaluateApproximation selectedModel start items) i
    = Some (AI.annotate evaluateApproximation selectedModel (start + i) result).
Proof.
  induction items as [| x items IH]; intros start i result H.
  - destruct i; discriminate H.
  - destruct i as [| i]; simpl in *.
    + injection H as <-. now rewrite Nat.add_0_r.
    + rewrite (IH (S start) i result H). f_equal. f_equal. lia.
Qed.

Lemma annotate_from_length (evaluateApproximation : JSValue -> JSValue -> Result JSValue)
      (selectedModel : JSValue) (items : list JSValue) (start : nat) :
  List.length (AI.annotate_from evaluateApproximation selectedModel start items)
  = List.length items.
Proof.
  revert start. induction items as [| x items IH]; intros start; simpl;
    [reflexivity | now rewrite IH].
Qed.

(** X11: with the API key set, [/api/ai-evaluate] answers every array of
    results with as many annotated results in the same order, whatever the
    AI calls do: the object at position [i] carries [evaluationIndex = i],
    the evaluation the call returned (or a marked fallback when it was
    rejected), and every other property of the submitted result, its
    [quality] and score among them, as it was. *)
Theorem ai_evaluation_only_annotates
        (evaluateApproximation : JSValue -> JSValue -> Result JSValue)
        (body : JSValue) (items : list JSValue)
        (Hresults : JS.prop body "results" = JArr items) :
  exists annotated metadata,
    AI.ai_evaluate true evaluateApproximation body = AI.Evaluated annotated metadata
    /\ List.length annotated = List.length items
    /\ AI.totalApproximations metadata = List.length items
    /\ forall i result,
        nth_error items i = Some result ->
        exists o,
          nth_error annotated i = Some o
          /\ JS.prop o "evaluationIndex" = JNum (inject_Z (Z.of_nat i))
          /\ JS.prop o "aiEvaluation"
             = match evaluateApproximation result (AI.model metadata) with
               | Ok aiEvaluation => aiEvaluation
               | Throw message => AI.failed_evaluation message
               end
          /\ (forall k, ~ In k AI.annotation_keys ->
                        JS.prop o k = JS.lookup k (AI.spread result)).
Proof.
  assert (JS.nullish body = false) as Hbody.
  { destruct body; try reflexivity; discriminate Hresults. }
  unfold AI.ai_evaluate.
  destruct body; try discriminate Hbody; rewrite Hresults; simpl negb; cbv iota;
    (do 2 eexists; split; [reflexivity |];
     split; [apply annotate_from_length |];
     split; [reflexivity |];
     intros i result Hnth;
     eexists; split; [apply (annotate_from_spec _ _ items 0 i result Hnth) |];
     apply annotate_spec).
Qed.

Lemma ai_evaluation_only_annotates_witness :
  exists annotated metadata,
    AI.ai_evaluate true (fun _ _ => Throw "rate limited")
      (JObj [("results", JArr [JObj [("quality", JNum 7); ("aiEvaluation", JNull)]])])
    = AI.Evaluated annotated metadata
    /\ map (fun o => JS.prop o "quality") annotated = [JNum 7].
Proof.
  destruct (ai_evaluation_only_annotates
              (fun _ _ => Throw "rate limited")
              (JObj [("results", JArr [JObj [("quality", JNum 7); ("aiEvaluation", JNull)]])])
              [JObj [("quality", JNum 7); ("aiEvaluation", JNull)]] eq_refl)
    as (annotated & metadata & Hresponse & _).
  exists annotated, metadata. split; [exact Hresponse |].
  injection Hresponse as <- _. reflexivity.
Defined.

(** ** Expressions without mpmath syntax *)

Lemma starts_with_longer (p q s : string) :
  starts_with p s = false -> starts_with (p ++ q) s = false.
Proof.
  revert s. induction p as [| a p IH]; intros s H; simpl in *.
  - discriminate.
  - destruct s as [| b s]; [reflexivity |].
    destruct (Ascii.eqb a b); simpl in *; [now apply IH | reflexivity].
Qed.

Lemma occurs_literal_longer (p q s : string) :
  occurs_literal p s = false -> occurs_literal (p ++ q) s = false.
Proof.
  induction s as [| c s IH]; simpl; intros H;
    apply orb_false_iff in H as [Hhere Hlater].
  - now rewrite (starts_with_longer p q "" Hhere).
  - now rewrite (starts_with_longer p q (String c s) Hhere), IH.
Qed.

Lemma replace_absent (pat rep s : string) :
  occurs_literal pat s = false -> replace_all pat rep s = s.
Proof.
  unfold replace_all.
  induction s as [| c s IH]; simpl; intros H.
  - reflexivity.
  - apply orb_false_iff in H as [Hhere Hlater].
    now rewrite Hhere, IH.
Qed.

(** X12: an expression in which [mp.] does not occur, in whatever letter
    case, is only lowercased by the cleaning step: the text handed on to
    the constant substitution is its lowercase form. *)
Theorem cleaning_without_mp_is_lowercasing
        (expression : string) (constants : list (string * string))
        (Hplain : occurs_literal "mp." (toLowerCase expression) = false) :
  MathEvaluator.clean_mpmath expression = toLowerCase expression
  /\ MathEvaluator.prepare expression constants
     = MathEvaluator.substitute constants
         (MathEvaluator.substitute CONSTANTS.table (toLowerCase expression)).
Proof.
  assert (MathEvaluator.clean_mpmath expression = toLowerCase expression) as Hclean.
  { unfold MathEvaluator.clean_mpmath. cbv zeta.
    rewrite (replace_absent "mp.pi") by exact (occurs_literal_longer "mp." "pi" _ Hplain).
    rewrite (replace_absent "mp.e") by exact (occurs_literal_longer "mp." "e" _ Hplain).
    rewrite (replace_absent "mp.sqrt(")
      by exact (occurs_literal_longer "mp." "sqrt(" _ Hplain).
    rewrite (replace_absent "mp.exp(")
      by exact (occurs_literal_longer "mp." "exp(" _ Hplain).
    rewrite (replace_absent "mp.ln(")
      by exact (occurs_literal_longer "mp." "ln(" _ Hplain).
    rewrite (replace_absent "mp.log(")
      by exact (occurs_literal_longer "mp." "log(" _ Hplain).
    rewrite (replace_absent "mp.sin(")
      by exact (occurs_literal_longer "mp." "sin(" _ Hplain).
    rewrite (replace_absent "mp.cos(")
      by exact (occurs_literal_longer "mp." "cos(" _ Hplain).
    rewrite (replace_absent "mp.tan(")
      by exact (occurs_literal_longer "mp." "tan(" _ Hplain).
    rewrite (replace_absent "mp.sinh(")
      by exact (occurs_literal_longer "mp." "sinh(" _ Hplain).
    rewrite (replace_absent "mp.cosh(")
      by exact (occurs_literal_longer "mp." "cosh(" _ Hplain).
    rewrite (replace_absent "mp.tanh(")
      by exact (occurs_literal_longer "mp." "tanh(" _ Hplain).
    now rewrite (replace_absent "mp.") by exact Hplain. }
  split; [exact Hclean |].
  unfold MathEvaluator.prepare. now rewrite Hclean.
Qed.

Lemma cleaning_without_mp_is_lowercasing_witness :
  MathEvaluator.clean_mpmath "SQRT(2)+Exp(1)" = "sqrt(2)+exp(1)".
Proof.
  exact (proj1 (cleaning_without_mp_is_lowercasing "SQRT(2)+Exp(1)" [] eq_refl)).
Defined.

(** ** Substituting constants twice *)

Lemma substitute_absent (table : list (string * string)) (text : string) :
  Forall (fun kv => occurs (fst kv) false text = false) table ->
  MathEvaluator.substitute table text = text.
Proof.
  induction table as [| [key value] table IH]; intros H.
  - reflexivity.
  - apply Forall_cons_iff in H as [Hkey Htable].
    rewrite substitute_cons. unfold replace_word.
    rewrite replace_without_occurrence by exact Hkey.
    now apply IH.
Qed.

(** X13: substituting the built-in constants is idempotent: in a text
    that went through the substitution no constant name is left as a whole
    word, and the digits put in are never read as a name, so a second pass
    changes nothing. *)
Theorem constant_substitution_is_idempotent (text : string) :
  MathEvaluator.substitute CONSTANTS.table
    (MathEvaluator.substitute CONSTANTS.table text)
  = MathEvaluator.substitute CONSTANTS.table text.
Proof.
  apply substitute_absent.
  repeat constructor; apply no_builtin_name_left; simpl; auto 10.
Qed.

(** ** The size of the complexity *)

Lemma count_chars_le (cs s : string) : (count_chars cs s <= length s)%nat.
Proof.
  induction s as [| c s IH]; simpl; [lia |].
  destruct (mem_char c cs); lia.
Qed.

Lemma count_words_from_le (names : list string) (s : string) :
  forall (p : bool) (k : nat), (count_words_from names p k s <= length s)%nat.
Proof.
  induction s as [| c s IH]; intros p k; simpl; [lia |].
  destruct k as [| k].
  - destruct (first_word_match names p (String c s)).
    + specialize (IH (is_word c) (length s0 - 1)%nat). lia.
    + specialize (IH (is_word c) 0%nat). lia.
  - specialize (IH (is_word c) k). lia.
Qed.

Lemma count_numbers_from_le (s : string) :
  forall st, (count_numbers_from st s <= length s)%nat.
Proof.
  induction s as [| c s IH]; intros st; simpl; [lia |].
  pose proof (IH Outside). pose proof (IH IntPart). pose proof (IH FracPart).
  destruct st, (is_digit c), (Ascii.eqb c dot); lia.
Qed.

(** X14: the complexity of an expression is at least its length and at
    most eight times its length, and it is zero for the empty expression
    only. *)
Theorem complexity_is_linear_in_the_length (expression : string) :
  (length expression <= MathEvaluator.calculateComplexity expression
   <= 8 * length expression)%nat
  /\ (MathEvaluator.calculateComplexity expression = 0%nat <-> expression = "").
Proof.
  unfold MathEvaluator.calculateComplexity.
  pose proof (count_chars_le "+-*/^()" expression).
  pose proof (count_words_from_le MathEvaluator.function_names expression false 0).
  pose proof (count_words_from_le MathEvaluator.constant_names expression false 0).
  pose proof (count_numbers_from_le expression Outside).
  unfold count_words, count_numbers in *.
  split; [lia |].
  split.
  - intros Hzero. destruct expression; [reflexivity | simpl in *; lia].
  - now intros ->.
Qed.

Lemma not_word_not_digit (c : ascii) : is_word c = false -> is_digit c = false.
Proof.
  unfold is_word. intros H.
  now destruct (is_digit c).
Qed.

(** X15: a character that is not a word character, put in front of an
    expression, adds to the complexity one for its length, and two more
    when it is an operator or a parenthesis; so a leading space costs
    exactly one. *)
Theorem leading_separator_adds_to_complexity
        (c : ascii) (expression : string) (Hc : is_word c = false) :
  MathEvaluator.calculateComplexity (String c expression)
  = (MathEvaluator.calculateComplexity expression + 1
     + (if mem_char c "+-*/^()" then 2 else 0))%nat.
Proof.
  unfold MathEvaluator.calculateComplexity, count_words, count_numbers.
  rewrite !count_non_word by (wordy_names || exact Hc).
  cbn [count_chars count_numbers_from length].
  rewrite (not_word_not_digit c Hc).
  destruct (mem_char c "+-*/^()"); lia.
Qed.

Lemma leading_separator_adds_to_complexity_witness :
  MathEvaluator.calculateComplexity " 22/7"
  = (MathEvaluator.calculateComplexity "22/7" + 1 + 0)%nat.
Proof.
  exact (leading_separator_adds_to_complexity " " "22/7" eq_refl).
Defined.

(** ** The cleaning of mpmath syntax as one pass *)

Lemma starts_with_split (p s : string) :
  starts_with p s = true -> s = p ++ drop (length p) s.
Proof.
  revert s. induction p as [| a p IH]; intros s H.
  - reflexivity.
  - destruct s as [| b s]; [discriminate |].
    cbn [starts_with] in H. apply andb_true_iff in H as [Hab Hp].
    apply Ascii.eqb_eq in Hab. subst b.
    cbn [length drop append]. f_equal. now apply IH.
Qed.

Lemma starts_with_self (p s : string) : starts_with p (p ++ s) = true.
Proof.
  induction p as [| a p IH]; cbn [append starts_with]; [reflexivity |].
  now rewrite Ascii.eqb_refl, IH.
Qed.

Lemma clash_starts (w rep tail : string) :
  clash w rep = true -> starts_with w (rep ++ tail) = false.
Proof.
  revert rep. induction w as [| a w IH]; intros rep H.
  - destruct rep; discriminate H.
  - destruct rep as [| b rep]; [discriminate H |].
    cbn [clash append starts_with] in *.
    destruct (Ascii.eqb a b); [now rewrite IH | reflexivity].
Qed.

Lemma replace_head_other (pat rep : string) (c : ascii) (s : string) :
  starts_with "m" pat = true -> Ascii.eqb "m" c = false ->
  replace_all pat rep (String c s) = String c (replace_all pat rep s).
Proof.
  intros Hpat Hc. unfold replace_all.
  destruct pat as [| a pat]; [discriminate Hpat |].
  cbn [starts_with] in Hpat. rewrite andb_true_r in Hpat.
  apply Ascii.eqb_eq in Hpat. subst a.
  cbn [replace_from starts_with]. now rewrite Hc.
Qed.

Lemma replace_skip_match (pat rep v s : string) :
  replace_from pat rep (length v) (v ++ s) = replace_from pat rep 0 s.
Proof.
  induction v as [| c v IH]; simpl; [| exact IH].
  now destruct s.
Qed.

Lemma replace_match (pat rep s : string) :
  pat <> "" -> replace_all pat rep (pat ++ s) = rep ++ replace_all pat rep s.
Proof.
  intros Hpat. unfold replace_all.
  destruct pat as [| a pat]; [contradiction |].
  change (String a pat ++ s) with (String a (pat ++ s)).
  cbn [replace_from].
  change (String a (pat ++ s)) with (String a pat ++ s).
  rewrite starts_with_self.
  cbn [length]. replace (S (length pat) - 1)%nat with (length pat) by lia.
  now rewrite replace_skip_match.
Qed.

Lemma replace_without_m (pat rep x s : string) :
  starts_with "m" pat = true -> mem_char "m" x = false ->
  replace_all pat rep (x ++ s) = x ++ replace_all pat rep s.
Proof.
  intros Hpat. induction x as [| c x IH]; intros Hx.
  - reflexivity.
  - cbn [mem_char] in Hx. apply orb_false_iff in Hx as [Hc Hx].
    cbn [append]. rewrite replace_head_other by assumption.
    now rewrite IH.
Qed.

(** A rule in front of [mp.] where its match does not start. *)
Lemma replace_no_match (x rep s : string) :
  starts_with x s = false ->
  replace_all ("mp." ++ x) rep ("mp." ++ s) = "mp." ++ replace_all ("mp." ++ x) rep s.
Proof.
  intros H. unfold replace_all.
  cbn [append replace_from starts_with].
  rewrite !Ascii.eqb_refl. cbn [andb]. rewrite H.
  change (Ascii.eqb "m" "p") with false. change (Ascii.eqb "m" ".") with false.
  reflexivity.
Qed.

Lemma strip_rule_step (r : string * string) (s : string) :
  strip_rule r = true ->
  replace_all (fst r) (snd r) ("mp." ++ s) = "mp." ++ replace_all (fst r) (snd r) s
  \/ replace_all (fst r) (snd r) ("mp." ++ s) = replace_all (fst r) (snd r) s.
Proof.
  destruct r as [pat x]. unfold strip_rule. cbn [fst snd]. intros H.
  apply andb_true_iff in H as [Hpat Hx].
  apply String.eqb_eq in Hpat. subst pat. apply negb_true_iff in Hx.
  destruct (starts_with x s) eqn:Hs.
  - right. apply starts_with_split in Hs. rewrite Hs at 1 2.
    change ("mp." ++ x ++ drop (length x) s) with (("mp." ++ x) ++ drop (length x) s).
    rewrite replace_match by discriminate.
    now rewrite replace_without_m.
  - left. now apply replace_no_match.
Qed.

Lemma apply_rules_cons (r : string * string) (rules : list (string * string))
      (s : string) :
  apply_rules (r :: rules) s = apply_rules rules (replace_all (fst r) (snd r) s).
Proof.
  reflexivity.
Qed.

Lemma apply_rules_app (rules1 rules2 : list (string * string)) (s : string) :
  apply_rules (rules1 ++ rules2) s = apply_rules rules2 (apply_rules rules1 s).
Proof.
  apply fold_left_app.
Qed.

Lemma apply_rules_head_other (rules : list (string * string)) (c : ascii) :
  Forall (fun r => starts_with "m" (fst r) = true) rules ->
  Ascii.eqb "m" c = false ->
  forall s, apply_rules rules (String c s) = String c (apply_rules rules s).
Proof.
  intros Hrules Hc.
  induction Hrules as [| r rules Hr _ IH]; intros s.
  - reflexivity.
  - rewrite !apply_rules_cons, replace_head_other by assumption. apply IH.
Qed.

Lemma apply_strip_rules (rules : list (string * string)) :
  Forall (fun r => strip_rule r = true) rules ->
  forall s,
    apply_rules rules ("mp." ++ s) = "mp." ++ apply_rules rules s
    \/ apply_rules rules ("mp." ++ s) = apply_rules rules s.
Proof.
  intros Hrules.
  induction Hrules as [| r rules Hr _ IH]; intros s.
  - now left.
  - rewrite !apply_rules_cons.
    destruct (strip_rule_step r s Hr) as [-> | ->]; [apply IH | now right].
Qed.

(** A text that does not start with [w] does not after a rule that keeps
    [w] out. *)
Lemma replace_keeps_out (w : string) (r : string * string) :
  mem_char "m" w = false -> keeps_out w r = true ->
  forall s, starts_with w s = false ->
            starts_with w (replace_all (fst r) (snd r) s) = false.
Proof.
  destruct r as [pat rep]. unfold keeps_out. cbn [fst snd].
  intros Hw H. apply andb_true_iff in H as [Hpat Hclash].
  assert (starts_with "m" pat = true) as Hm.
  { destruct pat as [| a pat]; [discriminate Hpat |].
    cbn [starts_with] in *. apply andb_true_iff in Hpat as [Ha _]. now rewrite Ha. }
  clear Hpat. revert Hw Hclash.
  induction w as [| a w IH]; intros Hw Hclash s Hs; [discriminate Hs |].
  cbn [mem_char] in Hw. apply orb_false_iff in Hw as [Ha Hw].
  cbn [suffixes_clash] in Hclash. apply andb_true_iff in Hclash as [Hhere Hlater].
  destruct s as [| c s]; [reflexivity |].
  unfold replace_all. cbn [replace_from].
  destruct (starts_with pat (String c s)) eqn:Hmatch.
  - now apply clash_starts.
  - cbn [starts_with] in *. destruct (Ascii.eqb a c); [| reflexivity].
    cbn [andb] in *. now apply IH.
Qed.

Lemma apply_rules_keep_out (w : string) (rules : list (string * string)) :
  mem_char "m" w = false ->
  Forall (fun r => keeps_out w r = true) rules ->
  forall s, starts_with w s = false -> starts_with w (apply_rules rules s) = false.
Proof.
  intros Hw Hrules.
  induction Hrules as [| r rules Hr _ IH]; intros s Hs; [exact Hs |].
  rewrite apply_rules_cons. apply IH. now apply replace_keeps_out.
Qed.

(** A rule in front of an [m] that no [p.] follows. *)
Lemma replace_after_m (pat rep s : string) :
  starts_with "mp." pat = true -> starts_with "p." s = false ->
  replace_all pat rep (String "m" s) = String "m" (replace_all pat rep s).
Proof.
  intros Hpat Hs. apply starts_with_split in Hpat.
  set (x := drop (length "mp.") pat) in *. rewrite Hpat. clearbody x.
  assert (starts_with ("mp." ++ x) (String "m" s) = false) as Hno.
  { change (starts_with ("mp." ++ x) (String "m" s))
      with (Ascii.eqb "m" "m" && starts_with ("p." ++ x) s).
    rewrite (starts_with_longer "p." x s Hs). apply andb_false_r. }
  unfold replace_all. cbn [replace_from]. now rewrite Hno.
Qed.

Lemma apply_rules_after_m (rules : list (string * string)) :
  Forall (fun r => keeps_out "p." r = true) rules ->
  forall s, starts_with "p." s = false ->
            apply_rules rules (String "m" s) = String "m" (apply_rules rules s).
Proof.
  intros Hrules.
  induction Hrules as [| r rules Hr _ IH]; intros s Hs; [reflexivity |].
  rewrite !apply_rules_cons.
  assert (starts_with "mp." (fst r) = true) as Hpat.
  { unfold keeps_out in Hr. now apply andb_true_iff in Hr as [Hpat _]. }
  rewrite replace_after_m by assumption.
  apply IH. now apply (replace_keeps_out "p." r).
Qed.

Lemma clean_mpmath_rules (expression : string) :
  MathEvaluator.clean_mpmath expression
  = apply_rules mpmath_rules (toLowerCase expression).
Proof.
  reflexivity.
Qed.

(** The four cases of one step of the chain of rules, as of the pass. *)
Lemma rules_other (c : ascii) (s : string) :
  Ascii.eqb "m" c = false ->
  apply_rules mpmath_rules (String c s) = String c (apply_rules mpmath_rules s).
Proof.
  intros Hc. apply apply_rules_head_other; [| exact Hc].
  repeat constructor.
Qed.

Lemma rules_m (s : string) :
  starts_with "p." s = false ->
  apply_rules mpmath_rules (String "m" s) = String "m" (apply_rules mpmath_rules s).
Proof.
  intros Hs.
  change mpmath_rules
    with (firstn 12 mpmath_rules ++ [("mp.", "")])%list.
  rewrite !apply_rules_app.
  rewrite apply_rules_after_m by (try exact Hs; repeat constructor).
  cbn [apply_rules fold_left fst snd].
  apply replace_after_m; [reflexivity |].
  apply (apply_rules_keep_out "p."); [reflexivity | repeat constructor | exact Hs].
Qed.

Lemma rules_ln (s : string) :
  apply_rules mpmath_rules ("mp.ln(" ++ s) = "log(" ++ apply_rules mpmath_rules s.
Proof.
  reflexivity.
Qed.

Lemma rules_mp (s : string) :
  starts_with "ln(" s = false ->
  apply_rules mpmath_rules ("mp." ++ s) = apply_rules mpmath_rules s.
Proof.
  intros Hs.
  pose (pre := firstn 4 mpmath_rules).
  pose (ln := [("mp.ln(", "log(")]).
  pose (mid := firstn 7 (skipn 5 mpmath_rules)).
  change mpmath_rules with (pre ++ ln ++ mid ++ [("mp.", "")])%list.
  rewrite !apply_rules_app.
  destruct (apply_strip_rules pre ltac:(repeat constructor) s) as [-> | ->];
    [| reflexivity].
  assert (starts_with "ln(" (apply_rules pre s) = false) as Hln.
  { apply (apply_rules_keep_out "ln("); [reflexivity | repeat constructor | exact Hs]. }
  assert (apply_rules ln ("mp." ++ apply_rules pre s)
          = "mp." ++ apply_rules ln (apply_rules pre s)) as ->.
  { exact (replace_no_match "ln(" "log(" _ Hln). }
  destruct (apply_strip_rules mid ltac:(repeat constructor)
              (apply_rules ln (apply_rules pre s)))
    as [-> | ->]; [| reflexivity].
  exact (replace_match "mp." "" _ ltac:(discriminate)).
Qed.

(** The four cases for the pass of the specification. *)
Lemma strip_other (c : ascii) (s : string) :
  Ascii.eqb "m" c = false ->
  Spec.strip_from 0 (String c s) = String c (Spec.strip_from 0 s).
Proof.
  intros Hc. cbn [Spec.strip_from starts_with]. now rewrite Hc.
Qed.

Lemma strip_m (s : string) :
  starts_with "p." s = false ->
  Spec.strip_from 0 (String "m" s) = String "m" (Spec.strip_from 0 s).
Proof.
  intros Hs. cbn [Spec.strip_from].
  change (starts_with "mp.ln(" (String "m" s))
    with (Ascii.eqb "m" "m" && starts_with ("p." ++ "ln(") s).
  change (starts_with "mp." (String "m" s))
    with (Ascii.eqb "m" "m" && starts_with "p." s).
  now rewrite (starts_with_longer "p." "ln(" s Hs), Hs.
Qed.

Lemma strip_ln (s : string) :
  Spec.strip_from 0 ("mp.ln(" ++ s) = "log(" ++ Spec.strip_from 0 s.
Proof.
  simpl. now destruct s.
Qed.

Lemma strip_mp (s : string) :
  starts_with "ln(" s = false ->
  Spec.strip_from 0 ("mp." ++ s) = Spec.strip_from 0 s.
Proof.
  intros Hs. cbn [append Spec.strip_from].
  change (starts_with "mp.ln(" (String "m" (String "p" (String "." s))))
    with (Ascii.eqb "m" "m" && (Ascii.eqb "p" "p" && (Ascii.eqb "." "."
          && starts_with "ln(" s))).
  rewrite Hs. now destruct s.
Qed.

(** The chain of replacements is the pass: by the length of the text. *)
Lemma rules_are_one_pass (s : string) :
  apply_rules mpmath_rules s = Spec.strip_from 0 s.
Proof.
  remember (length s) as n eqn:Hn.
  revert s Hn. induction n as [n IH] using lt_wf_ind. intros s Hn.
  destruct s as [| c s]; [reflexivity |].
  destruct (Ascii.eqb "m" c) eqn:Hc.
  - apply Ascii.eqb_eq in Hc. subst c.
    destruct (starts_with "p." s) eqn:Hp.
    + apply starts_with_split in Hp.
      remember (drop (length "p.") s) as t eqn:Ht. clear Ht. subst s.
      change (String "m" ("p." ++ t)) with ("mp." ++ t) in *.
      destruct (starts_with "ln(" t) eqn:Hl.
      * apply starts_with_split in Hl.
        remember (drop (length "ln(") t) as u eqn:Hu. clear Hu. subst t.
        change ("mp." ++ "ln(" ++ u) with ("mp.ln(" ++ u) in *.
        rewrite rules_ln, strip_ln. f_equal.
        apply (IH (length u)); [| reflexivity].
        subst n. simpl. lia.
      * rewrite rules_mp, strip_mp by exact Hl.
        apply (IH (length t)); [| reflexivity].
        subst n. simpl. lia.
    + rewrite rules_m, strip_m by exact Hp. f_equal.
      apply (IH (length s)); [| reflexivity]. subst n. simpl. lia.
  - rewrite rules_other, strip_other by exact Hc. f_equal.
    apply (IH (length s)); [| reflexivity]. subst n. simpl. lia.
Qed.

Lemma clean_mpmath_one_pass (expression : string) :
  MathEvaluator.clean_mpmath expression = Spec.strip_mpmath expression.
Proof.
  rewrite clean_mpmath_rules. apply rules_are_one_pass.
Qed.

(** A text that does not start with [w] does not when a text that starts
    with [m] is put behind it. *)
Lemma starts_with_before_m (w t rest : string) :
  mem_char "m" w = false -> starts_with w t = false ->
  rest = "" \/ starts_with "m" rest = true ->
  starts_with w (t ++ rest) = false.
Proof.
  intros Hw. revert t. induction w as [| a w IH]; intros t Ht Hrest; [discriminate Ht |].
  cbn [mem_char] in Hw. apply orb_false_iff in Hw as [Ha Hw].
  destruct t as [| c t].
  - cbn [append]. destruct Hrest as [-> | Hm]; [reflexivity |].
    destruct rest as [| b rest]; [reflexivity |].
    cbn [starts_with] in *. rewrite andb_true_r in Hm.
    apply Ascii.eqb_eq in Hm. subst b.
    now rewrite Ascii.eqb_sym, Ha.
  - cbn [append starts_with] in *.
    destruct (Ascii.eqb a c); [| reflexivity].
    cbn [andb] in *. now apply IH.
Qed.

(** The pass goes through a text and what follows it one after the other
    when what follows starts with [m]: no match reaches across. *)
Lemma strip_app (a rest : string) :
  rest = "" \/ starts_with "m" rest = true ->
  Spec.strip_from 0 (a ++ rest) = Spec.strip_from 0 a ++ Spec.strip_from 0 rest.
Proof.
  intros Hrest.
  remember (length a) as n eqn:Hn.
  revert a Hn. induction n as [n IH] using lt_wf_ind. intros a Hn.
  destruct a as [| c a]; [reflexivity |].
  cbn [append].
  destruct (Ascii.eqb "m" c) eqn:Hc.
  - apply Ascii.eqb_eq in Hc. subst c.
    destruct (starts_with "p." a) eqn:Hp.
    + apply starts_with_split in Hp.
      remember (drop (length "p.") a) as t eqn:Ht. clear Ht. subst a.
      change (String "m" (("p." ++ t) ++ rest)) with ("mp." ++ (t ++ rest)).
      change (String "m" ("p." ++ t)) with ("mp." ++ t) in *.
      destruct (starts_with "ln(" t) eqn:Hl.
      * apply starts_with_split in Hl.
        remember (drop (length "ln(") t) as u eqn:Hu. clear Hu. subst t.
        change ("mp." ++ ("ln(" ++ u) ++ rest) with ("mp.ln(" ++ (u ++ rest)).
        change ("mp." ++ "ln(" ++ u) with ("mp.ln(" ++ u) in *.
        rewrite !strip_ln.
        rewrite (IH (length u)); [now rewrite append_assoc | | reflexivity].
        subst n. simpl. lia.
      * rewrite !strip_mp
          by (try exact Hl; now apply starts_with_before_m).
        apply (IH (length t)); [| reflexivity].
        subst n. simpl. lia.
    + rewrite !strip_m by (try exact Hp; now apply starts_with_before_m).
      cbn [append]. f_equal.
      apply (IH (length a)); [| reflexivity]. subst n. simpl. lia.
  - rewrite !strip_other by exact Hc. cbn [append]. f_equal.
    apply (IH (length a)); [| reflexivity]. subst n. simpl. lia.
Qed.

Lemma toLowerCase_drop (n : nat) (s : string) :
  toLowerCase (drop n s) = drop n (toLowerCase s).
Proof.
  revert s. induction n as [| n IH]; intros s; [reflexivity |].
  destruct s as [| c s]; [reflexivity | apply IH].
Qed.

(** An [mp.] anywhere in a text: the cleaning drops it, and writes [log(]
    for the [ln(] that follows it. *)
Lemma clean_mpmath_prefix (before after : string) :
  MathEvaluator.clean_mpmath (before ++ "mp." ++ after)
  = MathEvaluator.clean_mpmath before
    ++ (if starts_with "ln(" (toLowerCase after)
        then "log(" ++ MathEvaluator.clean_mpmath (drop 3 after)
        else MathEvaluator.clean_mpmath after).
Proof.
  rewrite !clean_mpmath_one_pass. unfold Spec.strip_mpmath.
  rewrite !toLowerCase_app, toLowerCase_drop.
  change (toLowerCase "mp.") with "mp.".
  rewrite strip_app by (now right). f_equal.
  destruct (starts_with "ln(" (toLowerCase after)) eqn:Hl.
  - apply starts_with_split in Hl. rewrite Hl at 1.
    change ("mp." ++ "ln(" ++ drop (length "ln(") (toLowerCase after))
      with ("mp.ln(" ++ drop 3 (toLowerCase after)).
    apply strip_ln.
  - now apply strip_mp.
Qed.

(** C10: evaluation lowercases the whole expression and strips the mpmath
    prefixes before it substitutes constants.  The cleaning is one pass
    over the lowercased text that drops every [mp.] and writes [log(] for
    an [mp.ln(]; the text so cleaned is the one in which the constants are
    substituted, and the result of that is what mathjs evaluates.  So
    wherever they stand, [mp.ln(] and [mp.log(] are rewritten to [log(] and
    any other [mp.] is dropped; an expression and its lowercase form
    evaluate alike, [mp.pi] as [pi] and [MP.SQRT(2)] as [sqrt(2)]. *)
Theorem mpmath_syntax_is_normalised
        (L : Lib) (constants : list (string * string))
        (s before after : string) :
  MathEvaluator.clean_mpmath s = Spec.strip_mpmath s
  /\ MathEvaluator.prepare s constants
     = MathEvaluator.substitute constants
         (MathEvaluator.substitute CONSTANTS.table (Spec.strip_mpmath s))
  /\ MathEvaluator.evaluateExpression L s constants
     = match (text <- evaluate L
                        (MathEvaluator.substitute constants
                           (MathEvaluator.substitute CONSTANTS.table
                              (Spec.strip_mpmath s))) ;;
              Decimal_parse L text) with
       | Ok d => Ok d
       | Throw m => Throw ("Expression evaluation failed: " ++ m)
       end
  /\ MathEvaluator.clean_mpmath (before ++ "mp.ln(" ++ after)
     = MathEvaluator.clean_mpmath before ++ "log(" ++ MathEvaluator.clean_mpmath after
  /\ MathEvaluator.clean_mpmath (before ++ "mp.log(" ++ after)
     = MathEvaluator.clean_mpmath before ++ "log(" ++ MathEvaluator.clean_mpmath after
  /\ MathEvaluator.clean_mpmath (before ++ "mp." ++ after)
     = MathEvaluator.clean_mpmath before
       ++ (if starts_with "ln(" (toLowerCase after)
           then "log(" ++ MathEvaluator.clean_mpmath (drop 3 after)
           else MathEvaluator.clean_mpmath after)
  /\ MathEvaluator.evaluateExpression L s constants
     = MathEvaluator.evaluateExpression L (toLowerCase s) constants
  /\ MathEvaluator.evaluateExpression L "mp.pi" constants
     = MathEvaluator.evaluateExpression L "pi" constants
  /\ MathEvaluator.evaluateExpression L "MP.SQRT(2)" constants
     = MathEvaluator.evaluateExpression L "sqrt(2)" constants.
Proof.
  split; [apply clean_mpmath_one_pass |].
  split; [unfold MathEvaluator.prepare; now rewrite clean_mpmath_one_pass |].
  split.
  { unfold MathEvaluator.evaluateExpression, MathEvaluator.prepare.
    now rewrite clean_mpmath_one_pass. }
  split.
  { change (before ++ "mp.ln(" ++ after) with (before ++ "mp." ++ ("ln(" ++ after)).
    rewrite clean_mpmath_prefix. reflexivity. }
  split.
  { change (before ++ "mp.log(" ++ after) with (before ++ "mp." ++ ("log(" ++ after)).
    rewrite clean_mpmath_prefix. reflexivity. }
  split; [apply clean_mpmath_prefix |].
  split.
  { unfold MathEvaluator.evaluateExpression. now rewrite prepare_lowercase. }
  split; reflexivity.
Qed.

(** ** Function calls *)

(** The pass leaves a word in front of a parenthesis as it is. *)
Lemma strip_word_call (w s : string) :
  all_word w = true ->
  Spec.strip_from 0 (w ++ String "(" s) = w ++ String "(" (Spec.strip_from 0 s).
Proof.
  induction w as [| c w IH]; intros Hw.
  - cbn [append]. now apply strip_other.
  - cbn [all_word] in Hw. apply andb_true_iff in Hw as [Hc Hw].
    cbn [append].
    destruct (Ascii.eqb "m" c) eqn:Hm.
    + apply Ascii.eqb_eq in Hm. subst c.
      rewrite strip_m; [now rewrite IH |].
      destruct w as [| p w]; [reflexivity |].
      destruct w as [| d w].
      * cbn [append starts_with].
        change (Ascii.eqb "." "(") with false. now rewrite andb_false_r.
      * cbn [append starts_with].
        cbn [all_word] in Hw. apply andb_true_iff in Hw as [_ Hw].
        apply andb_true_iff in Hw as [Hd _].
        destruct (Ascii.eqb "." d) eqn:Hdot; [| now rewrite andb_false_r].
        apply Ascii.eqb_eq in Hdot. subst d. discriminate Hd.
    + rewrite strip_other by exact Hm. now rewrite IH.
Qed.

(** A word other than [ln] in front of a parenthesis does not read
    [ln(]. *)
Lemma word_call_is_not_ln (w s : string) :
  all_word w = true -> w <> "" -> w <> "ln" ->
  starts_with "ln(" (w ++ String "(" s) = false.
Proof.
  intros Hw Hne Hln.
  destruct w as [| a [| b [| c w]]]; [contradiction | | |];
    cbn [append starts_with].
  - change (Ascii.eqb "n" "(") with false. now rewrite andb_false_r.
  - destruct (Ascii.eqb "l" a) eqn:Ha; [| reflexivity].
    destruct (Ascii.eqb "n" b) eqn:Hb; [| reflexivity].
    apply Ascii.eqb_eq in Ha, Hb. subst a b. contradiction.
  - cbn [all_word] in Hw.
    apply andb_true_iff in Hw as [_ Hw]. apply andb_true_iff in Hw as [_ Hw].
    apply andb_true_iff in Hw as [Hc _].
    destruct (Ascii.eqb "(" c) eqn:Hp; [| now rewrite !andb_false_r].
    apply Ascii.eqb_eq in Hp. subst c. discriminate Hc.
Qed.

(** The substitution of constants leaves a word in front of a parenthesis
    as it is, when the word is none of the names. *)
Lemma substitute_word_call (table : list (string * string)) (w s : string) :
  Forall (fun kv => wordy (fst kv)) table ->
  all_word w = true -> w <> "" -> ~ In w (map fst table) ->
  MathEvaluator.substitute table (w ++ String "(" s)
  = w ++ String "(" (MathEvaluator.substitute table s).
Proof.
  intros Htable Hw Hne. revert s.
  induction Htable as [| [key value] table Hkey _ IH]; intros s Hout.
  - reflexivity.
  - rewrite !substitute_cons. unfold replace_word.
    cbn [map fst In] in Hout.
    rewrite replace_other_word;
      [| exact Hkey | exact Hw | exact Hne | intros ->; apply Hout; now left
       | reflexivity].
    rewrite replace_non_word by (try exact Hkey; reflexivity).
    apply IH. intros Hin. apply Hout. now right.
Qed.

Lemma prepare_word_call (name argument : string) :
  wordy name -> toLowerCase name = name ->
  ~ In name MathEvaluator.constant_names ->
  MathEvaluator.prepare (name ++ "(" ++ argument) []
  = name ++ "(" ++ MathEvaluator.prepare argument [].
Proof.
  intros [Hne Hw] Hlower Hout.
  unfold MathEvaluator.prepare.
  cbn [MathEvaluator.substitute fold_left].
  fold (MathEvaluator.substitute CONSTANTS.table).
  rewrite !clean_mpmath_one_pass. unfold Spec.strip_mpmath.
  rewrite toLowerCase_app, Hlower.
  change (toLowerCase ("(" ++ argument)) with (String "(" (toLowerCase argument)).
  rewrite strip_word_call by exact Hw.
  apply substitute_word_call;
    [repeat constructor; try discriminate | exact Hw | exact Hne | exact Hout].
Qed.

(** C2, as the code has it: the evaluator keeps no list of functions.  A
    call of a name made of lowercase word characters, other than the names
    of the constants (and [ln], about which nothing is said here), reaches
    mathjs under that name, its argument prepared like an expression of its
    own, with or without [mp.] in front of the name; [mp.ln(] and
    [mp.log(] reach it as [log(].  The call then evaluates exactly when
    mathjs evaluates that text and decimal.js reads what mathjs printed. *)
Theorem evaluator_defers_to_mathjs
        (L : Lib) (name argument : string)
        (Hname : wordy name) (Hlower : toLowerCase name = name)
        (Hconstant : ~ In name MathEvaluator.constant_names)
        (Hln : name <> "ln") :
  MathEvaluator.prepare (name ++ "(" ++ argument) []
  = name ++ "(" ++ MathEvaluator.prepare argument []
  /\ MathEvaluator.prepare ("mp." ++ name ++ "(" ++ argument) []
     = name ++ "(" ++ MathEvaluator.prepare argument []
  /\ MathEvaluator.prepare ("mp.ln(" ++ argument) []
     = "log(" ++ MathEvaluator.prepare argument []
  /\ MathEvaluator.prepare ("mp.log(" ++ argument) []
     = "log(" ++ MathEvaluator.prepare argument []
  /\ (forall d,
        MathEvaluator.evaluateExpression L (name ++ "(" ++ argument) [] = Ok d
        <-> exists text,
            evaluate L (name ++ "(" ++ MathEvaluator.prepare argument []) = Ok text
            /\ Decimal_parse L text = Ok d).
Proof.
  pose proof (prepare_word_call name argument Hname Hlower Hconstant) as Hcall.
  assert (forall text, MathEvaluator.substitute CONSTANTS.table ("log(" ++ text)
                       = "log(" ++ MathEvaluator.substitute CONSTANTS.table text)
    as Hlog.
  { intros text.
    apply (substitute_word_call CONSTANTS.table "log" text);
      [repeat constructor; try discriminate | reflexivity | discriminate |].
    simpl. intuition discriminate. }
  split; [exact Hcall |]. split; [| split; [| split]].
  - rewrite <- Hcall.
    change ("mp." ++ name ++ "(" ++ argument)
      with ("" ++ "mp." ++ (name ++ "(" ++ argument)).
    unfold MathEvaluator.prepare. rewrite clean_mpmath_prefix.
    rewrite toLowerCase_app, Hlower.
    change (toLowerCase ("(" ++ argument)) with (String "(" (toLowerCase argument)).
    change (name ++ "(" ++ argument) with (name ++ String "(" argument).
    now rewrite (word_call_is_not_ln name _ (proj2 Hname) (proj1 Hname) Hln).
  - unfold MathEvaluator.prepare. rewrite clean_mpmath_ln. apply Hlog.
  - unfold MathEvaluator.prepare. rewrite clean_mpmath_log. apply Hlog.
  - intros d. unfold MathEvaluator.evaluateExpression, bind. rewrite Hcall.
    destruct (evaluate L _) as [text | m].
    + destruct (Decimal_parse L text) as [d' | m] eqn:Hparse.
      * split.
        -- intros [= <-]. now exists text.
        -- intros (text' & [= <-] & Hd). congruence.
      * split; [discriminate |].
        intros (text' & [= <-] & Hd). congruence.
    + split; [discriminate |].
      intros (text' & Hd & _). discriminate Hd.
Qed.

Lemma evaluator_defers_to_mathjs_witness :
  MathEvaluator.prepare ("sinh" ++ "(" ++ "pi/2)") []
  = "sinh" ++ "(" ++ MathEvaluator.prepare "pi/2)" []
  /\ MathEvaluator.prepare ("mp." ++ "sinh" ++ "(" ++ "pi/2)") []
     = "sinh" ++ "(" ++ MathEvaluator.prepare "pi/2)" [].
Proof.
  destruct (evaluator_defers_to_mathjs Reference.lib "sinh" "pi/2)"
              ltac:(wordy_name) eq_refl
              ltac:(simpl; intuition discriminate) ltac:(discriminate))
    as (Hplain & Hprefixed & _).
  split; [exact Hplain | exact Hprefixed].
Defined.
